(** * chopgrep: the embedding-indexed chunk store (db.ts) and its CLI wrapper

    A shallow embedding of [db.ts] (schema, triggers, [insertChunk],
    [bulkInsertChunks], [searchSimilar]) and of [calculateEmbedding] from
    [chopper-grep.ts], with the SQL statements of the source given their
    SQLite meaning over two keyed tables. *)

From Stdlib Require Import ZArith QArith Floats.SpecFloat.
From stdpp Require Import base tactics option list gmap strings sorting.

#[local] Open Scope Z_scope.

(** ** Data model *)

(** An element of a JS [Float32Array]. *)
Definition float32 : Type := spec_float.

(** [Float32Array]: its [length] is the list's length. *)
Definition Float32Array : Type := list float32.

(** [new Float32Array(n)]: [n] elements, all [+0]. *)
Definition new_Float32Array (n : nat) : Float32Array :=
  replicate n (S754_zero false).

(** A Node [Buffer] over the array's bytes; it is kept as the array it views
    (four bytes per element, so [byteLength = 4 * length]). *)
Definition Buffer : Type := Float32Array.

Definition EMBEDDING_DIM : nat := 384.

(** [CodeChunkRow] as the callers build it ([id] is never supplied). *)
Record CodeChunkRow : Type := {
  file_name : string;
  file_path : string;
  chunk_text : string;
  inline_document : option string;
  embedding : Float32Array
}.

(** A stored row of table [code_chunks]; the primary key is the map key. *)
Record StoredChunk : Type := {
  st_file_name : string;
  st_file_path : string;
  st_chunk_text : string;
  st_inline_document : option string;
  st_embedding : Buffer
}.

(** What the schema statements of the module create (each only if absent). *)
Record Schema : Type := {
  tbl_code_chunks : bool;
  tbl_vec_index : option nat;       (* [float[n]], cosine metric *)
  trg_after_insert : bool;
  trg_after_delete : bool;
  trg_after_update : bool
}.

(** The SQLite file behind [db]. *)
Record Database : Type := {
  schema : Schema;
  code_chunks : gmap Z StoredChunk;  (* keyed by [id] *)
  vec_index : gmap Z Buffer;         (* keyed by [rowid] *)
  sqlite_sequence : Z                (* AUTOINCREMENT high-water mark *)
}.

(** ** Exceptions and the statement monad *)

Inductive SqliteError : Type :=
| NoSuchTable
| VecDimensionMismatch (expected got : nat)
| VecUniqueConstraint (rowid : Z)
| VecKnnError.

Inductive Error : Type :=
| EmbeddingLengthError (expected got : nat)
    (* Error(`embedding must have length ${EMBEDDING_DIM}, got ${arr.length}`) *)
| SQLiteError (e : SqliteError).

Inductive outcome (A : Type) : Type :=
| Return (a : A)
| Throw (e : Error).
Arguments Return {A} a.
Arguments Throw {A} e.

(** A computation on the open handle: the database after it, and either its
    value or the exception it threw. *)
Definition DbM (A : Type) : Type := Database → Database * outcome A.

#[export] Instance DbM_ret : MRet DbM := λ A a db, (db, Return a).
#[export] Instance DbM_bind : MBind DbM := λ A B f m db,
  match m db with
  | (db', Return a) => f a db'
  | (db', Throw e) => (db', Throw e)
  end.
Definition throw {A} (e : Error) : DbM A := λ db, (db, Throw e).

(** ** Helpers *)

Definition assertEmbeddingDim (arr : Float32Array) : DbM unit :=
  if decide (length arr ≠ EMBEDDING_DIM)
  then throw (EmbeddingLengthError EMBEDDING_DIM (length arr))
  else mret tt.

Definition float32ToBuffer (arr : Float32Array) : Buffer := arr.

(** ** SQLite: tables, the [vec0] virtual table and triggers *)

Definition set_schema (s : Schema) (db : Database) : Database :=
  {| schema := s; code_chunks := code_chunks db;
     vec_index := vec_index db; sqlite_sequence := sqlite_sequence db |}.

Definition set_code_chunks (t : gmap Z StoredChunk) (db : Database) : Database :=
  {| schema := schema db; code_chunks := t;
     vec_index := vec_index db; sqlite_sequence := sqlite_sequence db |}.

Definition set_vec_index (t : gmap Z Buffer) (db : Database) : Database :=
  {| schema := schema db; code_chunks := code_chunks db;
     vec_index := t; sqlite_sequence := sqlite_sequence db |}.

Definition set_sqlite_sequence (n : Z) (db : Database) : Database :=
  {| schema := schema db; code_chunks := code_chunks db;
     vec_index := vec_index db; sqlite_sequence := n |}.

(** A statement, and a [db.transaction(...)] call, is atomic: when its body
    throws, every change the body made is undone and the exception is passed on. *)
Definition atomically {A} (body : DbM A) : DbM A := λ db,
  match body db with
  | (db', Return a) => (db', Return a)
  | (_, Throw e) => (db, Throw e)
  end.

(** The statements a trigger body of this schema is made of. *)
Inductive VecStmt : Type :=
| VecInsert (rowid : Z) (embedding : Buffer)
    (* INSERT INTO vec_index(rowid, embedding) VALUES (rowid, embedding) *)
| VecDelete (rowid : Z).
    (* DELETE FROM vec_index WHERE rowid = rowid *)

Definition exec_vec (s : VecStmt) : DbM unit := λ db,
  match tbl_vec_index (schema db) with
  | None => (db, Throw (SQLiteError NoSuchTable))
  | Some dim =>
    match s with
    | VecInsert rowid emb =>
      if decide (length emb ≠ dim)
      then (db, Throw (SQLiteError (VecDimensionMismatch dim (length emb))))
      else match vec_index db !! rowid with
           | Some _ => (db, Throw (SQLiteError (VecUniqueConstraint rowid)))
           | None => (set_vec_index (<[rowid := emb]> (vec_index db)) db, Return tt)
           end
    | VecDelete rowid =>
      (set_vec_index (delete rowid (vec_index db)) db, Return tt)
    end
  end.

Fixpoint exec_body (body : list VecStmt) : DbM unit :=
  match body with
  | [] => mret tt
  | s :: body' => exec_vec s ;; exec_body body'
  end.

(** Trigger [code_chunks_after_insert]. *)
Definition code_chunks_after_insert (new_id : Z) (new : StoredChunk) : list VecStmt :=
  [VecInsert new_id (st_embedding new)].

(** Trigger [code_chunks_after_delete]. *)
Definition code_chunks_after_delete (old_id : Z) : list VecStmt :=
  [VecDelete old_id].

(** Trigger [code_chunks_after_update]. *)
Definition code_chunks_after_update (old_id new_id : Z) (new : StoredChunk) : list VecStmt :=
  [VecDelete old_id; VecInsert new_id (st_embedding new)].

Definition fire (installed : bool) (body : list VecStmt) : DbM unit :=
  if installed then exec_body body else mret tt.

(** The largest [id] in the table, 0 when it is empty. *)
Definition max_rowid (t : gmap Z StoredChunk) : Z :=
  foldr Z.max 0 (elements (dom t)).

(** AUTOINCREMENT: one more than the largest [id] the table ever held. *)
Definition next_rowid (db : Database) : Z :=
  1 + Z.max (sqlite_sequence db) (max_rowid (code_chunks db)).

(** [INSERT INTO code_chunks (file_name, file_path, chunk_text,
    inline_document, embedding) VALUES (?, ?, ?, ?, ?)]; the value is
    [lastInsertRowid]. *)
Definition INSERT_INTO_code_chunks (fname fpath text : string)
    (doc : option string) (buf : Buffer) : DbM Z :=
  atomically (λ db,
    if tbl_code_chunks (schema db) then
      let id := next_rowid db in
      let new := {| st_file_name := fname; st_file_path := fpath;
                    st_chunk_text := text; st_inline_document := doc;
                    st_embedding := buf |} in
      (fire (trg_after_insert (schema db)) (code_chunks_after_insert id new) ;;
       mret id)
        (set_sqlite_sequence id (set_code_chunks (<[id := new]> (code_chunks db)) db))
    else (db, Throw (SQLiteError NoSuchTable))).

(** The event [code_chunks_after_delete] is declared on:
    [DELETE FROM code_chunks WHERE id = ?]. *)
Definition DELETE_FROM_code_chunks (id : Z) : DbM unit :=
  atomically (λ db,
    if tbl_code_chunks (schema db) then
      match code_chunks db !! id with
      | None => (db, Return tt)
      | Some _ =>
        fire (trg_after_delete (schema db)) (code_chunks_after_delete id)
          (set_code_chunks (delete id (code_chunks db)) db)
      end
    else (db, Throw (SQLiteError NoSuchTable))).

(** The event [code_chunks_after_update] is declared on: an [UPDATE
    code_chunks SET ... WHERE id = ?] that replaces the row's columns and
    keeps its [id]. *)
Definition UPDATE_code_chunks (id : Z) (new : StoredChunk) : DbM unit :=
  atomically (λ db,
    if tbl_code_chunks (schema db) then
      match code_chunks db !! id with
      | None => (db, Return tt)
      | Some _ =>
        fire (trg_after_update (schema db)) (code_chunks_after_update id id new)
          (set_code_chunks (<[id := new]> (code_chunks db)) db)
      end
    else (db, Throw (SQLiteError NoSuchTable))).

(** ** Schema: the [db.exec] calls run when the module is loaded *)

Definition CREATE_TABLE_code_chunks : DbM unit := λ db,
  if tbl_code_chunks (schema db) then (db, Return tt)
  else
    let s := schema db in
    (set_code_chunks ∅
       (set_schema {| tbl_code_chunks := true; tbl_vec_index := tbl_vec_index s;
                      trg_after_insert := trg_after_insert s;
                      trg_after_delete := trg_after_delete s;
                      trg_after_update := trg_after_update s |} db),
     Return tt).

Definition CREATE_VIRTUAL_TABLE_vec_index (dim : nat) : DbM unit := λ db,
  match tbl_vec_index (schema db) with
  | Some _ => (db, Return tt)
  | None =>
    let s := schema db in
    (set_vec_index ∅
       (set_schema {| tbl_code_chunks := tbl_code_chunks s; tbl_vec_index := Some dim;
                      trg_after_insert := trg_after_insert s;
                      trg_after_delete := trg_after_delete s;
                      trg_after_update := trg_after_update s |} db),
     Return tt)
  end.

Inductive TriggerName : Type := AfterInsert | AfterDelete | AfterUpdate.

Definition CREATE_TRIGGER (t : TriggerName) : DbM unit := λ db,
  let s := schema db in
  if tbl_code_chunks s then
    (set_schema
       {| tbl_code_chunks := tbl_code_chunks s; tbl_vec_index := tbl_vec_index s;
          trg_after_insert := match t with AfterInsert => true | _ => trg_after_insert s end;
          trg_after_delete := match t with AfterDelete => true | _ => trg_after_delete s end;
          trg_after_update := match t with AfterUpdate => true | _ => trg_after_update s end |}
       db,
     Return tt)
  else (db, Throw (SQLiteError NoSuchTable)).

Definition ensureSchema : DbM unit :=
  CREATE_TABLE_code_chunks ;;
  CREATE_VIRTUAL_TABLE_vec_index EMBEDDING_DIM ;;
  CREATE_TRIGGER AfterInsert ;;
  CREATE_TRIGGER AfterDelete ;;
  CREATE_TRIGGER AfterUpdate.

(** A file that does not exist yet: [new Database(DB_PATH)] creates it empty. *)
Definition fresh_database : Database :=
  {| schema := {| tbl_code_chunks := false; tbl_vec_index := None;
                  trg_after_insert := false; trg_after_delete := false;
                  trg_after_update := false |};
     code_chunks := ∅; vec_index := ∅; sqlite_sequence := 0 |}.

(** The schema as this module creates it. *)
Definition module_schema : Schema :=
  {| tbl_code_chunks := true; tbl_vec_index := Some EMBEDDING_DIM;
     trg_after_insert := true; trg_after_delete := true; trg_after_update := true |}.

(** ** Ingestion *)

Definition insertChunk (chunk : CodeChunkRow) : DbM Z :=
  assertEmbeddingDim (embedding chunk) ;;
  let buf := float32ToBuffer (embedding chunk) in
  INSERT_INTO_code_chunks (file_name chunk) (file_path chunk) (chunk_text chunk)
    (inline_document chunk) buf.

(** The body passed to [db.transaction]: [for (const c of batch) ...]. *)
Fixpoint insertMany_body (batch : list CodeChunkRow) : DbM unit :=
  match batch with
  | [] => mret tt
  | c :: batch' =>
    assertEmbeddingDim (embedding c) ;;
    INSERT_INTO_code_chunks (file_name c) (file_path c) (chunk_text c)
      (inline_document c) (float32ToBuffer (embedding c)) ;;
    insertMany_body batch'
  end.

Definition insertMany (batch : list CodeChunkRow) : DbM unit :=
  atomically (insertMany_body batch).

(** [Array.prototype.slice(start, end)]: negative indices count from the end. *)
Definition js_slice {A} (l : list A) (start end_ : Z) : list A :=
  let len := Z.of_nat (length l) in
  let k := if start <? 0 then Z.max (len + start) 0 else Z.min start len in
  let final := if end_ <? 0 then Z.max (len + end_) 0 else Z.min end_ len in
  take (Z.to_nat (final - k)) (drop (Z.to_nat k) l).

(** [for (let i = 0; i < chunks.length; i += batchSize)], one unit of fuel per
    iteration; [None] when the fuel does not suffice. [batchSize] and [i] are
    JS numbers holding integers. *)
Fixpoint bulkInsertChunks_loop (fuel : nat) (chunks : list CodeChunkRow)
    (batchSize i : Z) (db : Database) : option (Database * outcome unit) :=
  if i <? Z.of_nat (length chunks) then
    match fuel with
    | O => None
    | S fuel' =>
      let slice := js_slice chunks i (i + batchSize) in
      match insertMany slice db with
      | (db', Return _) => bulkInsertChunks_loop fuel' chunks batchSize (i + batchSize) db'
      | (db', Throw e) => Some (db', Throw e)
      end
    end
  else Some (db, Return tt).

Definition bulkInsertChunks (fuel : nat) (chunks : list CodeChunkRow)
    (batchSize : Z) (db : Database) : option (Database * outcome unit) :=
  bulkInsertChunks_loop fuel chunks batchSize 0 db.

(** The default of the [batchSize] parameter. *)
Definition default_batchSize : Z := 500.

(** ** Query *)

(** [SearchResult]; [distance] is a JS number, read as the rational it
    denotes. *)
Record SearchResult : Type := {
  id : Z;
  res_file_name : string;
  res_file_path : string;
  res_chunk_text : string;
  res_inline_document : option string;
  distance : Q
}.

(** A row of the KNN [SELECT]: [c.id], the columns of [c], [v.distance].
    The column [v.distance] holds a number or NULL ([None]): NULL is what
    SQLite makes of a NaN, which is what the cosine distance to an all-zero
    vector is. *)
Definition KnnRow : Type := Z * StoredChunk * option Q.

Definition row_distance (r : KnnRow) : option Q := r.2.

(** The order of [ORDER BY] on a REAL column: NULL comes before every number,
    numbers ascend. *)
Definition sql_le (a b : option Q) : Prop :=
  match a, b with
  | None, _ => True
  | Some _, None => False
  | Some x, Some y => (x <= y)%Q
  end.

Definition distance_le (r1 r2 : KnnRow) : Prop :=
  sql_le (row_distance r1) (row_distance r2).

#[export] Instance distance_le_dec r1 r2 : Decision (distance_le r1 r2).
Proof.
  unfold distance_le, sql_le.
  destruct (row_distance r1) as [x|], (row_distance r2) as [y|].
  - destruct (Qlt_le_dec y x) as [Hlt|Hle].
    + right. apply Qlt_not_le, Hlt.
    + left. exact Hle.
  - right. intros [].
  - left. exact I.
  - left. exact I.
Defined.

(** [Number(r.distance)]: [Number(null)] is 0. *)
Definition Number (v : option Q) : Q := default 0%Q v.

(** [LIMIT n]: a negative [n] puts no bound on the number of rows. *)
Definition sql_limit {A} (n : Z) (rows : list A) : list A :=
  if n <? 0 then rows else take (Z.to_nat n) rows.

(** [JOIN code_chunks c ON c.id = v.rowid]: an inner join, so a match without
    a row of [code_chunks] yields nothing. *)
Definition join_code_chunks (t : gmap Z StoredChunk) (m : Z * option Q) : option KnnRow :=
  c ← t !! m.1; Some (m.1, c, m.2).

Section Query.

(** The KNN operator of the [vec0] virtual table (sqlite-vec), for the
    constraint [v.embedding MATCH ? AND v.k = ?] under the cosine metric:
    the matched [rowid]s with their [distance], or an error of the
    extension. It is not part of this repository. *)
Variable vec0_knn : gmap Z Buffer → Buffer → Z → SqliteError + list (Z * option Q).

(** The KNN [SELECT] of [searchSimilar], bound to [(qBuf, k, k)]: the matches
    of the index, joined with their rows, ordered by distance (any sort will
    do; ties may come in any order), cut by [LIMIT]. *)
Definition SELECT_knn (qBuf : Buffer) (k limit : Z) : DbM (list KnnRow) := λ db,
  if tbl_code_chunks (schema db) && bool_decide (is_Some (tbl_vec_index (schema db))) then
    match vec0_knn (vec_index db) qBuf k with
    | inl e => (db, Throw (SQLiteError e))
    | inr matches =>
      let joined := omap (join_code_chunks (code_chunks db)) matches in
      let ordered := merge_sort distance_le joined in
      (db, Return (sql_limit limit ordered))
    end
  else (db, Throw (SQLiteError NoSuchTable)).

Definition to_SearchResult (r : KnnRow) : SearchResult :=
  {| id := r.1.1;
     res_file_name := st_file_name r.1.2;
     res_file_path := st_file_path r.1.2;
     res_chunk_text := st_chunk_text r.1.2;
     res_inline_document := st_inline_document r.1.2;
     distance := Number r.2 |}.

Definition searchSimilar (queryEmbedding : Float32Array) (k : Z)
    : DbM (list SearchResult) :=
  assertEmbeddingDim queryEmbedding ;;
  let qBuf := float32ToBuffer queryEmbedding in
  rows ← SELECT_knn qBuf k k;
  mret (to_SearchResult <$> rows).

End Query.

(** The default of the [k] parameter. *)
Definition default_k : Z := 5.

(** ** The CLI's embedding wrapper (chopper-grep.ts) *)

(** What [await embeddingPipeline(text, ...)] does: it throws, or it yields an
    output whose [data] is an array or is missing. *)
Inductive PipelineResult : Type :=
| PipelineThrows
| PipelineOutput (data : option (list float32)).

(** How an [async] function ends: its promise is fulfilled with a value, or
    rejected with what was thrown. *)
Inductive PromiseState (A : Type) : Type :=
| Fulfilled (value : A)
| Rejected.
Arguments Fulfilled {A} value.
Arguments Rejected {A}.

(** [try { body } catch (error) { handler }]. *)
Definition try_catch {A} (body handler : PromiseState A) : PromiseState A :=
  match body with
  | Fulfilled a => Fulfilled a
  | Rejected => handler
  end.

(** [Float32Array.prototype.set(src)] at offset 0, for [src] no longer than
    the target. *)
Definition Float32Array_set (target src : Float32Array) : Float32Array :=
  src ++ drop (length src) target.

Module Cli.
Section Embedding.
Variable embeddingPipeline : string → PipelineResult.

Definition calculateEmbedding (text : string) : PromiseState Float32Array :=
  try_catch
    (match embeddingPipeline text with
     | PipelineThrows => Rejected
     | PipelineOutput (Some embeddingArray) =>
       if decide (length embeddingArray ≠ EMBEDDING_DIM) then
         let truncatedOrPadded := new_Float32Array EMBEDDING_DIM in
         let copyLength := Nat.min (length embeddingArray) EMBEDDING_DIM in
         Fulfilled (Float32Array_set truncatedOrPadded (take copyLength embeddingArray))
       else Fulfilled embeddingArray
     | PipelineOutput None => Fulfilled (new_Float32Array EMBEDDING_DIM)
     end)
    (Fulfilled (new_Float32Array EMBEDDING_DIM)).
End Embedding.
End Cli.

(** The earlier version of the wrapper: a wrong length is thrown inside the
    [try] and so ends in the same [catch]. *)
Module CliLegacy.
Section Embedding.
Variable embeddingPipeline : string → PipelineResult.

Definition calculateEmbedding (text : string) : PromiseState Float32Array :=
  try_catch
    (match embeddingPipeline text with
     | PipelineThrows => Rejected
     | PipelineOutput (Some embeddingArray) =>
       if decide (length embeddingArray ≠ EMBEDDING_DIM) then Rejected   (* throw *)
       else Fulfilled embeddingArray
     | PipelineOutput None => Fulfilled (new_Float32Array EMBEDDING_DIM)
     end)
    (Fulfilled (new_Float32Array EMBEDDING_DIM)).
End Embedding.
End CliLegacy.

(** ** The commands of the earlier CLI: [indexDirectory] and [query] *)

(** A chunk descriptor of the chunker, as far as this file reads it:
    [chunk.filePath], [chunk.content], [chunk.boundary.docs]. *)
Record BoundaryChunk : Type := {
  filePath : string;
  content : string;
  docs : option string
}.

(** What [await readDirectoryAndChunk(factory, options, dirPath)] does. *)
Inductive ReaderResult : Type :=
| ReaderThrows
| ReaderChunks (chunks : list BoundaryChunk).

(** What the [catch] of [indexDirectory] caught. *)
Inductive Caught : Type :=
| CaughtReader
| CaughtEmbedding
| CaughtStore (e : Error).

(** The one message [indexDirectory] prints:
    [Indexed ${n} code chunks.], [No code chunks found to index.] or
    [Error during directory indexing:] with the error. *)
Inductive IndexReport : Type :=
| Indexed (n : nat)
| NoChunksFound
| IndexingError (e : Caught).

(** The lines [query] prints for one result, by their contents: the rank
    [index + 1], [file_path], the first line of [chunk_text], [file_name],
    the first 100 characters of [chunk_text], and the distance (printed with
    [toFixed(4)]). *)
Record ResultLines : Type := {
  rank : nat;
  line_file : string;
  line_type : string;
  line_name : string;
  line_snippet : string;
  line_score : Q
}.

(** What [query] prints: [Top ${k} results for query ...] with the lines of
    each result, or [No results found for query ...]. *)
Inductive QueryReport : Type :=
| TopResults (k : Z) (queryText : string) (entries : list ResultLines)
| NoResultsFound (queryText : string).

(** How [query] ends: it has printed, or [searchSimilar] threw, or the
    awaited embedding was rejected. *)
Inductive QueryOutcome : Type :=
| Printed (report : QueryReport)
| QueryThrows (e : Error)
| QueryRejected.

(** [s.split('\n')[0]]. *)
Fixpoint first_line (s : string) : string :=
  match s with
  | EmptyString => EmptyString
  | String c s' =>
    if Ascii.eqb c (Ascii.ascii_of_nat 10) then EmptyString
    else String c (first_line s')
  end.

(** The lines of the result at position [index]; [substring] is JS's
    [String.prototype.substring], which counts UTF-16 code units. *)
Definition result_lines (substring : nat → nat → string → string)
    (index : nat) (result : SearchResult) : ResultLines :=
  {| rank := index + 1;
     line_file := res_file_path result;
     line_type := first_line (res_chunk_text result);
     line_name := res_file_name result;
     line_snippet := substring 0%nat 100%nat (res_chunk_text result);
     line_score := distance result |}.

(** What [query] does with the outcome of [searchSimilar]. *)
Definition print_results (substring : nat → nat → string → string)
    (queryText : string) (k : Z)
    (searched : Database * outcome (list SearchResult)) : Database * QueryOutcome :=
  match searched with
  | (db', Throw e) => (db', QueryThrows e)
  | (db', Return results) =>
    if decide (0 < length results)%nat
    then (db', Printed (TopResults k queryText (imap (result_lines substring) results)))
    else (db', Printed (NoResultsFound queryText))
  end.

Module CliLegacyCommands.
Section Commands.
Variable embeddingPipeline : string → PipelineResult.
Variable readDirectoryAndChunk : string → ReaderResult.
Variable basename : string → string.
Variable substring : nat → nat → string → string.
Variable vec0_knn : gmap Z Buffer → Buffer → Z → SqliteError + list (Z * option Q).

(** The object pushed to [chunksToInsert] for a chunk and its embedding;
    [chunk.boundary.docs || ''] is never null. *)
Definition to_row (chunk : BoundaryChunk) (embedding : Float32Array) : CodeChunkRow :=
  {| file_name := basename (filePath chunk);
     file_path := filePath chunk;
     chunk_text := content chunk;
     inline_document := Some (default EmptyString (docs chunk));
     embedding := embedding |}.

(** [for (const chunk of chunks) { ... chunksToInsert.push(...) }]. *)
Fixpoint collect_rows (chunks : list BoundaryChunk) : PromiseState (list CodeChunkRow) :=
  match chunks with
  | [] => Fulfilled []
  | chunk :: chunks' =>
    match CliLegacy.calculateEmbedding embeddingPipeline (content chunk) with
    | Rejected => Rejected
    | Fulfilled embedding =>
      match collect_rows chunks' with
      | Rejected => Rejected
      | Fulfilled rows => Fulfilled (to_row chunk embedding :: rows)
      end
    end
  end.

(** [indexDirectory]: everything after [createParserFactory()] runs inside
    its [try], so it ends with one message and never throws; [None] when the
    fuel of the batch loop does not suffice. *)
Definition indexDirectory (fuel : nat) (dirPath : string) (db : Database)
    : option (Database * IndexReport) :=
  match readDirectoryAndChunk dirPath with
  | ReaderThrows => Some (db, IndexingError CaughtReader)
  | ReaderChunks chunks =>
    match collect_rows chunks with
    | Rejected => Some (db, IndexingError CaughtEmbedding)
    | Fulfilled chunksToInsert =>
      if decide (0 < length chunksToInsert)%nat then
        match bulkInsertChunks fuel chunksToInsert default_batchSize db with
        | None => None
        | Some (db', Return _) => Some (db', Indexed (length chunksToInsert))
        | Some (db', Throw e) => Some (db', IndexingError (CaughtStore e))
        end
      else Some (db, NoChunksFound)
    end
  end.

(** [query(queryText, k)]. *)
Definition query (queryText : string) (k : Z) (db : Database)
    : Database * QueryOutcome :=
  match CliLegacy.calculateEmbedding embeddingPipeline queryText with
  | Rejected => (db, QueryRejected)
  | Fulfilled queryEmbedding =>
    print_results substring queryText k (searchSimilar vec0_knn queryEmbedding k db)
  end.

End Commands.
End CliLegacyCommands.

(** ** Specification-level notions *)

(** The module's schema is in place (what [ensureSchema] leaves on a new file). *)
Definition established (db : Database) : Prop := schema db = module_schema.

(** The schema [ensureSchema] leaves: what exists is kept, the rest is created. *)
Definition ensured (s : Schema) : Schema :=
  {| tbl_code_chunks := true;
     tbl_vec_index := Some (default EMBEDDING_DIM (tbl_vec_index s));
     trg_after_insert := true; trg_after_delete := true; trg_after_update := true |}.

(** The schema is one that loading the module leaves: both tables and the
    three triggers exist; the index has whatever dimension it was created with. *)
Definition loaded (db : Database) : Prop := schema db = ensured (schema db).

(** The vector index mirrors the metadata table: same keys, same embeddings. *)
Definition mirrored (db : Database) : Prop :=
  vec_index db = st_embedding <$> code_chunks db.

(** The row [INSERT INTO code_chunks] stores for a chunk. *)
Definition stored (c : CodeChunkRow) : StoredChunk :=
  {| st_file_name := file_name c; st_file_path := file_path c;
     st_chunk_text := chunk_text c; st_inline_document := inline_document c;
     st_embedding := float32ToBuffer (embedding c) |}.

(** One chunk added to both stores under the next identity. *)
Definition insert_row (c : CodeChunkRow) (db : Database) : Database :=
  {| schema := schema db;
     code_chunks := <[next_rowid db := stored c]> (code_chunks db);
     vec_index := <[next_rowid db := st_embedding (stored c)]> (vec_index db);
     sqlite_sequence := next_rowid db |}.

Definition insert_all (cs : list CodeChunkRow) (db : Database) : Database :=
  foldl (λ d c, insert_row c d) db cs.

(** [d'] is [d] with the chunks [cs] committed: the [j]-th chunk is the row and
    the entry of the [j]-th identity after those [d] has used, and every other
    identity is as in [d]. *)
Definition committed (cs : list CodeChunkRow) (d d' : Database) : Prop :=
  ∀ i : Z,
    code_chunks d' !! i =
      (if decide (next_rowid d ≤ i < next_rowid d + Z.of_nat (length cs))
       then stored <$> cs !! Z.to_nat (i - next_rowid d)
       else code_chunks d !! i) ∧
    vec_index d' !! i =
      (if decide (next_rowid d ≤ i < next_rowid d + Z.of_nat (length cs))
       then embedding <$> cs !! Z.to_nat (i - next_rowid d)
       else vec_index d !! i).

Definition valid (c : CodeChunkRow) : Prop := length (embedding c) = EMBEDDING_DIM.

#[export] Instance valid_dec c : Decision (valid c).
Proof. unfold valid. apply _. Defined.

(** Following the spec's words: consecutive batches of at most [n] records. *)
Fixpoint batches_fuel {A} (fuel n : nat) (l : list A) : list (list A) :=
  match fuel with
  | O => []
  | S fuel' =>
    match l with
    | [] => []
    | _ => take n l :: batches_fuel fuel' n (drop n l)
    end
  end.

Definition batches_of {A} (n : nat) (l : list A) : list (list A) :=
  batches_fuel (length l) n l.

(** One transaction per batch, in order, up to the first one that throws. *)
Definition run_batches (batches : list (list CodeChunkRow)) : DbM unit :=
  foldr (λ b k, insertMany b ;; k) (mret tt) batches.

(** The completed transactions of the store. *)
Inductive step (db : Database) : Database → Prop :=
| step_load db' o :
    ensureSchema db = (db', o) → step db db'
| step_insertChunk c db' o :
    insertChunk c db = (db', o) → step db db'
| step_bulkInsertChunks fuel cs batchSize db' o :
    bulkInsertChunks fuel cs batchSize db = Some (db', o) → step db db'
| step_delete i db' o :
    DELETE_FROM_code_chunks i db = (db', o) → step db db'
| step_update i new db' o :
    UPDATE_code_chunks i new db = (db', o) → step db db'.

Definition INSERT_chunk (c : CodeChunkRow) : DbM Z :=
  INSERT_INTO_code_chunks (file_name c) (file_path c) (chunk_text c)
    (inline_document c) (float32ToBuffer (embedding c)).

Definition delete_row (i : Z) (db : Database) : Database :=
  {| schema := schema db;
     code_chunks := delete i (code_chunks db);
     vec_index := delete i (vec_index db);
     sqlite_sequence := sqlite_sequence db |}.

Definition replace_row (i : Z) (new : StoredChunk) (db : Database) : Database :=
  {| schema := schema db;
     code_chunks := <[i := new]> (code_chunks db);
     vec_index := <[i := st_embedding new]> (delete i (vec_index db));
     sqlite_sequence := sqlite_sequence db |}.

(** The rows the [SELECT] returns for the matches [ms] of the index. *)
Definition knn_rows (db : Database) (k : Z) (ms : list (Z * option Q)) : list KnnRow :=
  sql_limit k (merge_sort distance_le (omap (join_code_chunks (code_chunks db)) ms)).

(** Every row has its entry, with the row's embedding, under the same
    identity, and every entry has its row; identities are keys, so there is
    at most one of each per identity. *)
Definition bijection (db : Database) : Prop :=
  (∀ i c, code_chunks db !! i = Some c → vec_index db !! i = Some (st_embedding c)) ∧
  (∀ i e, vec_index db !! i = Some e →
          ∃ c, code_chunks db !! i = Some c ∧ st_embedding c = e).



(** The AUTOINCREMENT counter is at least every identity in use. *)
Definition seq_bound (db : Database) : Prop :=
  0 ≤ sqlite_sequence db ∧
  ∀ i, is_Some (code_chunks db !! i) → i ≤ sqlite_sequence db.

(** ** Sample data *)

Definition sample_chunk (name : string) (dim : nat) : CodeChunkRow :=
  {| file_name := name; file_path := "src/" +:+ name; chunk_text := "fn " +:+ name;
     inline_document := None; embedding := new_Float32Array dim |}.

(** The database right after the module is loaded on a new file. *)
Definition loaded_database : Database := (ensureSchema fresh_database).1.

(** Five chunks, the last one with an embedding of the wrong length. *)
Definition five_chunks : list CodeChunkRow :=
  [sample_chunk "a.ts" 384; sample_chunk "b.ts" 384; sample_chunk "c.ts" 384;
   sample_chunk "d.ts" 384; sample_chunk "e.ts" 383].

(** A stand-in for the extension that answers every query with the given
    matches, cut to [k], and rejects a negative [k]. *)
Definition vec0_canned (ms : list (Z * option Q))
    : gmap Z Buffer → Buffer → Z → SqliteError + list (Z * option Q) :=
  λ _ _ k, if k <? 0 then inl VecKnnError else inr (take (Z.to_nat k) ms).

(** The database after one [insertChunk] on a newly loaded one. *)
Definition one_row_database : Database :=
  (insertChunk (sample_chunk "a.ts" 384) loaded_database).1.

(** The database after the first four sample chunks are stored. *)
Definition four_rows_database : Database :=
  insert_all (take 4 five_chunks) loaded_database.

(** A database whose index holds an entry (identity 7) without a row. *)
Definition orphan_database : Database :=
  set_vec_index (<[7 := new_Float32Array 384]> (vec_index (insert_all (take 4 five_chunks) loaded_database)))
    (insert_all (take 4 five_chunks) loaded_database).

Definition sample_matches : list (Z * option Q) :=
  [(3, Some (1 # 2)%Q); (7, Some (1 # 4)%Q); (1, Some (0 # 1)%Q); (2, Some (3 # 2)%Q)].

Definition replacement_row : StoredChunk :=
  {| st_file_name := "c.ts"; st_file_path := "src/c.ts"; st_chunk_text := "fn c2";
     st_inline_document := Some "rewritten";
     st_embedding := replicate 384 (S754_finite false 1 0) |}.

(** A file left by a deployment whose index was created with 128 dimensions. *)
Definition other_dimension_database : Database :=
  {| schema := {| tbl_code_chunks := true; tbl_vec_index := Some 128%nat;
                  trg_after_insert := true; trg_after_delete := true;
                  trg_after_update := true |};
     code_chunks := ∅; vec_index := ∅; sqlite_sequence := 0 |}.

(** A database whose index already holds an entry under the identity the next
    row will get. *)
Definition blocked_database : Database :=
  set_vec_index (<[5 := new_Float32Array 384]> (vec_index four_rows_database))
    four_rows_database.

(** A stand-in for the extension that does not look at [k]. *)
Definition vec0_all (ms : list (Z * option Q))
    : gmap Z Buffer → Buffer → Z → SqliteError + list (Z * option Q) :=
  λ _ _ _, inr ms.

Definition short_output : list float32 :=
  [S754_finite false 1 0; S754_finite true 3 (-1)].

(** A chunker that returns two chunks, and a pipeline that always throws. *)
Definition two_chunks : list BoundaryChunk :=
  [{| filePath := "src/db.ts"; content := "function close"; docs := None |};
   {| filePath := "src/cli.ts"; content := "function main"; docs := Some "entry" |}].




(** * Properties *)

(** ** The monad and [atomically] *)

Lemma bind_Return {A B} (m : DbM A) (f : A → DbM B) db db' a :
  m db = (db', Return a) → (m ≫= f) db = f a db'.
Proof. intros H. unfold mbind, DbM_bind. by rewrite H. Qed.

Lemma bind_Throw {A B} (m : DbM A) (f : A → DbM B) db db' e :
  m db = (db', Throw e) → (m ≫= f) db = (db', Throw e).
Proof. intros H. unfold mbind, DbM_bind. by rewrite H. Qed.

Lemma atomically_Throw {A} (body : DbM A) db db' e :
  atomically body db = (db', Throw e) → db' = db.
Proof.
  unfold atomically. destruct (body db) as [d [a|e']]; congruence.
Qed.

Lemma atomically_cases {A} (body : DbM A) db :
  (∃ db' a, body db = (db', Return a) ∧ atomically body db = (db', Return a)) ∨
  (∃ db' e, body db = (db', Throw e) ∧ atomically body db = (db, Throw e)).
Proof.
  unfold atomically. destruct (body db) as [d [a|e]]; [left|right]; eauto.
Qed.

(** ** [assertEmbeddingDim] *)

Lemma assertEmbeddingDim_ok arr db :
  length arr = EMBEDDING_DIM → assertEmbeddingDim arr db = (db, Return tt).
Proof. intros H. unfold assertEmbeddingDim. by rewrite decide_False by congruence. Qed.

Lemma assertEmbeddingDim_throws arr db :
  length arr ≠ EMBEDDING_DIM →
  assertEmbeddingDim arr db =
    (db, Throw (EmbeddingLengthError EMBEDDING_DIM (length arr))).
Proof. intros H. unfold assertEmbeddingDim. by rewrite decide_True. Qed.

(** ** AUTOINCREMENT *)

Lemma max_rowid_ge (t : gmap Z StoredChunk) i :
  is_Some (t !! i) → i ≤ max_rowid t.
Proof.
  intros Hi. apply elem_of_dom, elem_of_elements in Hi.
  unfold max_rowid. induction Hi as [x l|x y l _ IH]; simpl; lia.
Qed.

Lemma next_rowid_fresh db : code_chunks db !! next_rowid db = None.
Proof.
  destruct (code_chunks db !! next_rowid db) eqn:E; [|done].
  assert (next_rowid db ≤ max_rowid (code_chunks db)) by (apply max_rowid_ge; eauto).
  unfold next_rowid in *. lia.
Qed.

Lemma next_rowid_gt db i :
  is_Some (code_chunks db !! i) → i < next_rowid db.
Proof. intros H%max_rowid_ge. unfold next_rowid. lia. Qed.

Lemma next_rowid_gt_sequence db : sqlite_sequence db < next_rowid db.
Proof. unfold next_rowid. lia. Qed.

(** ** The [INSERT] statement with its trigger *)

Lemma INSERT_chunk_ok c db :
  established db → valid c → vec_index db !! next_rowid db = None →
  INSERT_chunk c db = (insert_row c db, Return (next_rowid db)).
Proof.
  intros Hs Hv Hfresh.
  unfold INSERT_chunk, INSERT_INTO_code_chunks, atomically.
  rewrite Hs. simpl.
  unfold mbind, DbM_bind, exec_vec. simpl. rewrite Hs. simpl.
  unfold float32ToBuffer. rewrite decide_False by (unfold valid in Hv; congruence).
  rewrite Hfresh. simpl. unfold insert_row, stored, float32ToBuffer, set_vec_index.
  simpl. by rewrite Hs.
Qed.

Lemma INSERT_chunk_cases c db :
  established db →
  INSERT_chunk c db = (insert_row c db, Return (next_rowid db)) ∨
  ∃ e, INSERT_chunk c db = (db, Throw (SQLiteError e)).
Proof.
  intros Hs.
  destruct (decide (valid c)) as [Hv|Hv].
  - destruct (vec_index db !! next_rowid db) as [b|] eqn:Hfresh.
    + right. exists (VecUniqueConstraint (next_rowid db)).
      unfold INSERT_chunk, INSERT_INTO_code_chunks, atomically.
      rewrite Hs. simpl.
      unfold mbind, DbM_bind, exec_vec. simpl. rewrite Hs. simpl.
      unfold float32ToBuffer. rewrite decide_False by (unfold valid in Hv; congruence).
      by rewrite Hfresh.
    + left. by apply INSERT_chunk_ok.
  - right. exists (VecDimensionMismatch EMBEDDING_DIM (length (embedding c))).
    unfold INSERT_chunk, INSERT_INTO_code_chunks, atomically.
    rewrite Hs. simpl.
    unfold mbind, DbM_bind, exec_vec. simpl. rewrite Hs. simpl.
    unfold float32ToBuffer. by rewrite decide_True.
Qed.

Lemma insert_row_established c db : established db → established (insert_row c db).
Proof. done. Qed.

Lemma insert_row_mirrored c db : mirrored db → mirrored (insert_row c db).
Proof.
  unfold mirrored, insert_row. simpl. intros ->. by rewrite fmap_insert.
Qed.

Lemma insert_all_established cs db : established db → established (insert_all cs db).
Proof.
  revert db. induction cs as [|c cs IH]; intros db H; [done|].
  apply IH, insert_row_established, H.
Qed.

Lemma insert_all_mirrored cs db : mirrored db → mirrored (insert_all cs db).
Proof.
  revert db. induction cs as [|c cs IH]; intros db H; [done|].
  apply IH, insert_row_mirrored, H.
Qed.

Lemma insert_all_app cs1 cs2 db :
  insert_all (cs1 ++ cs2) db = insert_all cs2 (insert_all cs1 db).
Proof. apply foldl_app. Qed.

Lemma mirrored_fresh db : mirrored db → vec_index db !! next_rowid db = None.
Proof. intros ->. by rewrite lookup_fmap, next_rowid_fresh. Qed.

(** ** One batch *)

Lemma insertMany_body_cons c b db :
  insertMany_body (c :: b) db =
  (assertEmbeddingDim (embedding c) ;; INSERT_chunk c ;; insertMany_body b) db.
Proof. done. Qed.

Lemma insertMany_body_Return b db db' u :
  established db → insertMany_body b db = (db', Return u) →
  db' = insert_all b db ∧ Forall valid b.
Proof.
  revert db. induction b as [|c b IH]; intros db Hs H.
  - simpl in H. unfold mret, DbM_ret in H. by simplify_eq.
  - rewrite insertMany_body_cons in H.
    destruct (decide (valid c)) as [Hv|Hv].
    + rewrite (bind_Return _ _ _ _ _ (assertEmbeddingDim_ok _ db Hv)) in H.
      destruct (INSERT_chunk_cases c db Hs) as [Hi|[e Hi]].
      * rewrite (bind_Return _ _ _ _ _ Hi) in H.
        apply IH in H as [-> Hb]; [|by apply insert_row_established].
        split; [done|by constructor].
      * by rewrite (bind_Throw _ _ _ _ _ Hi) in H.
    + by rewrite (bind_Throw _ _ _ _ _ (assertEmbeddingDim_throws _ db Hv)) in H.
Qed.

Lemma insertMany_body_valid b db :
  established db → mirrored db → Forall valid b →
  insertMany_body b db = (insert_all b db, Return tt).
Proof.
  intros Hs Hm Hb. revert db Hs Hm.
  induction Hb as [|c b Hv Hb IH]; intros db Hs Hm; [done|].
  rewrite insertMany_body_cons.
  rewrite (bind_Return _ _ _ _ _ (assertEmbeddingDim_ok _ db Hv)).
  rewrite (bind_Return _ _ _ _ _
             (INSERT_chunk_ok c db Hs Hv (mirrored_fresh db Hm))).
  apply IH; [by apply insert_row_established|by apply insert_row_mirrored].
Qed.

Lemma insertMany_body_invalid pre c post db :
  established db → mirrored db → Forall valid pre → ¬ valid c →
  insertMany_body (pre ++ c :: post) db =
    (insert_all pre db,
     Throw (EmbeddingLengthError EMBEDDING_DIM (length (embedding c)))).
Proof.
  intros Hs Hm Hpre Hc. revert db Hs Hm.
  induction Hpre as [|p pre Hv Hpre IH]; intros db Hs Hm.
  - simpl app. rewrite insertMany_body_cons.
    by rewrite (bind_Throw _ _ _ _ _ (assertEmbeddingDim_throws _ db Hc)).
  - simpl app. rewrite insertMany_body_cons.
    rewrite (bind_Return _ _ _ _ _ (assertEmbeddingDim_ok _ db Hv)).
    rewrite (bind_Return _ _ _ _ _
               (INSERT_chunk_ok p db Hs Hv (mirrored_fresh db Hm))).
    apply IH; [by apply insert_row_established|by apply insert_row_mirrored].
Qed.

Lemma insertMany_cases b db :
  established db →
  insertMany b db = (insert_all b db, Return tt) ∨
  ∃ e, insertMany b db = (db, Throw e).
Proof.
  intros Hs. unfold insertMany.
  destruct (atomically_cases (insertMany_body b) db)
    as [(db' & [] & Hb & ->)|(db' & e & _ & ->)]; [left|right; eauto].
  by apply insertMany_body_Return in Hb as [-> _].
Qed.

Lemma insertMany_valid b db :
  established db → mirrored db → Forall valid b →
  insertMany b db = (insert_all b db, Return tt).
Proof.
  intros Hs Hm Hb. unfold insertMany, atomically.
  by rewrite insertMany_body_valid.
Qed.

Lemma insertMany_invalid pre c post db :
  established db → mirrored db → Forall valid pre → ¬ valid c →
  insertMany (pre ++ c :: post) db =
    (db, Throw (EmbeddingLengthError EMBEDDING_DIM (length (embedding c)))).
Proof.
  intros Hs Hm Hpre Hc. unfold insertMany, atomically.
  by rewrite (insertMany_body_invalid pre c post db Hs Hm Hpre Hc).
Qed.

Lemma insertMany_preserves b db db' o :
  established db → mirrored db → insertMany b db = (db', o) →
  established db' ∧ mirrored db'.
Proof.
  intros Hs Hm H.
  destruct (insertMany_cases b db Hs) as [E|[e E]]; rewrite E in H; simplify_eq.
  - split; [by apply insert_all_established|by apply insert_all_mirrored].
  - done.
Qed.

(** ** Batching *)

Lemma js_slice_batch {A} (l : list A) (i n : Z) :
  0 ≤ i → 1 ≤ n →
  js_slice l i (i + n) = take (Z.to_nat n) (drop (Z.to_nat i) l).
Proof.
  intros Hi Hn. unfold js_slice.
  destruct (Z.ltb_spec i 0) as [?|_]; [lia|].
  destruct (Z.ltb_spec (i + n) 0) as [?|_]; [lia|].
  destruct (decide (i + n ≤ Z.of_nat (length l))) as [Hle|Hgt].
  - f_equal; [lia|f_equal; lia].
  - rewrite (take_ge (drop (Z.to_nat i) l) (Z.to_nat n))
      by (rewrite length_drop; lia).
    destruct (decide (i ≤ Z.of_nat (length l))).
    + rewrite (Z.min_l i) by lia. rewrite (Z.min_r (i + n)) by lia.
      apply take_ge. rewrite length_drop. lia.
    + rewrite !drop_ge by lia. by rewrite take_nil.
Qed.

Section Batches.
Context {A : Type}.
Implicit Types (l : list A) (n fuel : nat).

Lemma batches_fuel_nil fuel n : batches_fuel fuel n (@nil A) = [].
Proof. by destruct fuel. Qed.

Lemma batches_fuel_concat fuel n l :
  (1 ≤ n)%nat → (length l ≤ fuel)%nat → concat (batches_fuel fuel n l) = l.
Proof.
  intros Hn. revert l.
  induction fuel as [|fuel IH]; intros l Hl.
  - destruct l; [done|simpl in Hl; lia].
  - destruct l as [|x l]; [done|].
    change (take n (x :: l) ++ concat (batches_fuel fuel n (drop n (x :: l))) = x :: l).
    rewrite IH; [apply take_drop|].
    rewrite length_drop. simpl in *. lia.
Qed.

Lemma batches_fuel_sizes fuel n l :
  (1 ≤ n)%nat → Forall (λ b, (1 ≤ length b ≤ n)%nat) (batches_fuel fuel n l).
Proof.
  intros Hn. revert l.
  induction fuel as [|fuel IH]; intros l; [constructor|].
  destruct l as [|x l]; [constructor|].
  constructor; [|apply IH].
  rewrite length_take. simpl. lia.
Qed.

Lemma batches_fuel_lookup fuel n l j b :
  batches_fuel fuel n l !! j = Some b → b = take n (drop (j * n)%nat l).
Proof.
  revert l j.
  induction fuel as [|fuel IH]; intros l j H; [done|].
  destruct l as [|x l]; [done|].
  destruct j as [|j].
  - simpl in H. by simplify_eq.
  - change (batches_fuel fuel n (drop n (x :: l)) !! j = Some b) in H.
    apply IH in H as ->. by rewrite drop_drop.
Qed.

Lemma batches_fuel_irrel fuel1 fuel2 n l :
  (1 ≤ n)%nat → (length l ≤ fuel1)%nat → (length l ≤ fuel2)%nat →
  batches_fuel fuel1 n l = batches_fuel fuel2 n l.
Proof.
  intros Hn. revert fuel2 l.
  induction fuel1 as [|fuel1 IH]; intros fuel2 l H1 H2.
  - destruct l; [by rewrite !batches_fuel_nil|simpl in H1; lia].
  - destruct l as [|x l]; [by rewrite !batches_fuel_nil|].
    destruct fuel2 as [|fuel2]; [simpl in H2; lia|].
    change (take n (x :: l) :: batches_fuel fuel1 n (drop n (x :: l)) =
            take n (x :: l) :: batches_fuel fuel2 n (drop n (x :: l))).
    f_equal. apply IH; rewrite length_drop; simpl in *; lia.
Qed.

Lemma batches_fuel_enough fuel n l :
  (1 ≤ n)%nat → (length l ≤ fuel)%nat → batches_fuel fuel n l = batches_of n l.
Proof. intros Hn Hl. by apply batches_fuel_irrel. Qed.
End Batches.

Lemma run_batches_cons b batches db :
  run_batches (b :: batches) db = (insertMany b ;; run_batches batches) db.
Proof. done. Qed.

(** The loop is the batch-by-batch run of the partition. *)
Lemma bulkInsertChunks_loop_refines fuel chunks batchSize i db :
  1 ≤ batchSize → 0 ≤ i →
  Z.of_nat (length chunks) - i ≤ Z.of_nat fuel →
  bulkInsertChunks_loop fuel chunks batchSize i db =
    Some (run_batches
            (batches_fuel fuel (Z.to_nat batchSize) (drop (Z.to_nat i) chunks)) db).
Proof.
  intros Hb. revert i db.
  induction fuel as [|fuel IH]; intros i db Hi Hfuel.
  - simpl. destruct (Z.ltb_spec i (Z.of_nat (length chunks))); [lia|done].
  - simpl bulkInsertChunks_loop.
    destruct (Z.ltb_spec i (Z.of_nat (length chunks))) as [Hlt|Hge].
    + destruct (drop (Z.to_nat i) chunks) as [|x rest] eqn:Hdrop.
      { apply (f_equal length) in Hdrop. rewrite length_drop in Hdrop.
        simpl in Hdrop. lia. }
      rewrite js_slice_batch by lia. rewrite Hdrop.
      change (batches_fuel (S fuel) (Z.to_nat batchSize) (x :: rest))
        with (take (Z.to_nat batchSize) (x :: rest) ::
              batches_fuel fuel (Z.to_nat batchSize)
                (drop (Z.to_nat batchSize) (x :: rest))).
      rewrite run_batches_cons. unfold mbind at 1, DbM_bind at 1.
      destruct (insertMany (take (Z.to_nat batchSize) (x :: rest)) db)
        as [db' [[]|e]]; [|done].
      rewrite IH by lia. rewrite <- Hdrop, drop_drop.
      do 4 f_equal. lia.
    + rewrite drop_ge by lia. by rewrite batches_fuel_nil.
Qed.

Lemma bulkInsertChunks_refines fuel chunks batchSize db :
  1 ≤ batchSize → (length chunks ≤ fuel)%nat →
  bulkInsertChunks fuel chunks batchSize db =
    Some (run_batches (batches_of (Z.to_nat batchSize) chunks) db).
Proof.
  intros Hb Hfuel. unfold bulkInsertChunks.
  rewrite bulkInsertChunks_loop_refines by lia.
  rewrite drop_0. by rewrite batches_fuel_enough by lia.
Qed.

(** With a [batchSize] of 0 the loop never advances: no amount of fuel lets it
    return on a non-empty input. *)
Lemma bulkInsertChunks_zero_batchSize fuel chunks db :
  chunks ≠ [] → bulkInsertChunks fuel chunks 0 db = None.
Proof.
  intros Hne. unfold bulkInsertChunks.
  assert ((0 <? Z.of_nat (length chunks)) = true) as Hlt.
  { apply Z.ltb_lt. destruct chunks; [done|simpl; lia]. }
  assert (js_slice chunks 0 0 = []) as Hslice.
  { unfold js_slice. simpl. by rewrite Z.min_l by lia. }
  revert db. induction fuel as [|fuel IH]; intros db; simpl; rewrite Hlt; [done|].
  change (0 + 0) with 0. rewrite Hslice. apply IH.
Qed.

Lemma run_batches_cases batches db :
  established db →
  run_batches batches db = (insert_all (concat batches) db, Return tt) ∨
  ∃ done failing rest e,
    batches = done ++ failing :: rest ∧
    insertMany failing (insert_all (concat done) db) =
      (insert_all (concat done) db, Throw e) ∧
    run_batches batches db = (insert_all (concat done) db, Throw e).
Proof.
  revert db. induction batches as [|b batches IH]; intros db Hs; [by left|].
  rewrite run_batches_cons.
  destruct (insertMany_cases b db Hs) as [Hb|[e Hb]].
  - rewrite (bind_Return _ _ _ _ _ Hb).
    destruct (IH (insert_all b db) (insert_all_established b db Hs))
      as [Hr|(done & failing & rest & e & -> & Hf & Hr)].
    + left. rewrite Hr. simpl concat. by rewrite insert_all_app.
    + right. exists (b :: done), failing, rest, e.
      simpl concat. rewrite insert_all_app. by rewrite Hr.
  - right. exists [], b, batches, e.
    by rewrite (bind_Throw _ _ _ _ _ Hb).
Qed.

Lemma run_batches_valid batches db :
  established db → mirrored db → Forall (Forall valid) batches →
  run_batches batches db = (insert_all (concat batches) db, Return tt).
Proof.
  intros Hs Hm Hv. revert db Hs Hm.
  induction Hv as [|b batches Hb Hv IH]; intros db Hs Hm; [done|].
  rewrite run_batches_cons.
  rewrite (bind_Return _ _ _ _ _ (insertMany_valid b db Hs Hm Hb)).
  rewrite IH; [|by apply insert_all_established|by apply insert_all_mirrored].
  simpl concat. by rewrite insert_all_app.
Qed.

Lemma run_batches_preserves batches db db' o :
  established db → mirrored db → run_batches batches db = (db', o) →
  established db' ∧ mirrored db'.
Proof.
  revert db. induction batches as [|b batches IH]; intros db Hs Hm H.
  - simpl in H. unfold mret, DbM_ret in H. by simplify_eq.
  - rewrite run_batches_cons in H. unfold mbind, DbM_bind in H.
    destruct (insertMany b db) as [d [[]|e]] eqn:Hb.
    + apply insertMany_preserves in Hb as [? ?]; [|done..]. by eapply IH.
    + apply insertMany_preserves in Hb; [|done..]. by simplify_eq.
Qed.

(** The loop keeps the invariant with any fuel and any [batchSize]. *)
Lemma bulkInsertChunks_loop_preserves fuel chunks batchSize i db db' o :
  established db → mirrored db →
  bulkInsertChunks_loop fuel chunks batchSize i db = Some (db', o) →
  established db' ∧ mirrored db'.
Proof.
  revert i db. induction fuel as [|fuel IH]; intros i db Hs Hm H; simpl in H.
  - destruct (i <? Z.of_nat (length chunks)); by simplify_eq.
  - destruct (i <? Z.of_nat (length chunks)); [|by simplify_eq].
    destruct (insertMany _ db) as [d [[]|e]] eqn:Hb.
    + apply insertMany_preserves in Hb as [? ?]; [|done..]. by eapply IH.
    + apply insertMany_preserves in Hb; [|done..]. by simplify_eq.
Qed.

(** ** What [insert_all] stores *)

Lemma max_rowid_le (t : gmap Z StoredChunk) b :
  0 ≤ b → (∀ i, is_Some (t !! i) → i ≤ b) → max_rowid t ≤ b.
Proof.
  intros Hb H. unfold max_rowid.
  assert (Forall (λ i, i ≤ b) (elements (dom t))) as Hall.
  { apply Forall_forall. intros i Hi%elem_of_elements%elem_of_dom. by apply H. }
  induction Hall; simpl; lia.
Qed.

Lemma next_rowid_insert_row c db :
  next_rowid (insert_row c db) = next_rowid db + 1.
Proof.
  pose proof (next_rowid_gt_sequence db) as Hseq.
  assert (max_rowid (code_chunks (insert_row c db)) ≤ next_rowid db) as Hle.
  { apply max_rowid_le.
    - unfold next_rowid, max_rowid in *.
      assert (0 ≤ foldr Z.max 0 (elements (dom (code_chunks db)))); [|lia].
      generalize (elements (dom (code_chunks db))). intros l.
      induction l; simpl; lia.
    - intros i. unfold insert_row. simpl.
      destruct (decide (i = next_rowid db)) as [->|Hne]; [lia|].
      rewrite lookup_insert_ne by done. intros H%next_rowid_gt. lia. }
  assert (next_rowid db ≤ max_rowid (code_chunks (insert_row c db))) as Hge.
  { apply max_rowid_ge. unfold insert_row. simpl.
    rewrite lookup_insert_eq. eauto. }
  unfold next_rowid at 1. simpl sqlite_sequence. lia.
Qed.

Lemma next_rowid_insert_all cs db :
  next_rowid (insert_all cs db) = next_rowid db + Z.of_nat (length cs).
Proof.
  revert db. induction cs as [|c cs IH]; intros db; [simpl; lia|].
  change (insert_all (c :: cs) db) with (insert_all cs (insert_row c db)).
  rewrite IH, next_rowid_insert_row. simpl length. lia.
Qed.

(** The [j]-th chunk is stored, in both tables, under the [j]-th identity
    after those in use; every other identity is left as it was. *)
Lemma insert_all_code_chunks cs db i :
  code_chunks (insert_all cs db) !! i =
    if decide (next_rowid db ≤ i < next_rowid db + Z.of_nat (length cs))
    then stored <$> cs !! Z.to_nat (i - next_rowid db)
    else code_chunks db !! i.
Proof.
  revert db. induction cs as [|c cs IH]; intros db.
  - simpl. case_decide; [lia|done].
  - change (insert_all (c :: cs) db) with (insert_all cs (insert_row c db)).
    rewrite IH, next_rowid_insert_row. simpl length.
    destruct (decide (i = next_rowid db)) as [->|Hne].
    + rewrite decide_False by lia. rewrite decide_True by lia.
      rewrite Z.sub_diag. simpl. apply lookup_insert_eq.
    + unfold insert_row. simpl code_chunks.
      rewrite lookup_insert_ne by done.
      repeat case_decide; try lia; [|done].
      replace (Z.to_nat (i - next_rowid db))
        with (S (Z.to_nat (i - (next_rowid db + 1)))) by lia.
      done.
Qed.

Lemma insert_all_vec_index cs db i :
  vec_index (insert_all cs db) !! i =
    if decide (next_rowid db ≤ i < next_rowid db + Z.of_nat (length cs))
    then embedding <$> cs !! Z.to_nat (i - next_rowid db)
    else vec_index db !! i.
Proof.
  revert db. induction cs as [|c cs IH]; intros db.
  - simpl. case_decide; [lia|done].
  - change (insert_all (c :: cs) db) with (insert_all cs (insert_row c db)).
    rewrite IH, next_rowid_insert_row. simpl length.
    destruct (decide (i = next_rowid db)) as [->|Hne].
    + rewrite decide_False by lia. rewrite decide_True by lia.
      rewrite Z.sub_diag. simpl. apply lookup_insert_eq.
    + unfold insert_row. simpl vec_index.
      rewrite lookup_insert_ne by done.
      repeat case_decide; try lia; [|done].
      replace (Z.to_nat (i - next_rowid db))
        with (S (Z.to_nat (i - (next_rowid db + 1)))) by lia.
      done.
Qed.

Lemma insert_all_committed cs db : committed cs db (insert_all cs db).
Proof.
  intros i. split; [apply insert_all_code_chunks|apply insert_all_vec_index].
Qed.

(** ** Schema establishment *)

Lemma ensureSchema_Return db : ∃ db', ensureSchema db = (db', Return tt).
Proof.
  destruct db as [[[] [dim|] ti td tu] cc vi sq]; eexists; reflexivity.
Qed.

Lemma ensureSchema_schema db db' o :
  ensureSchema db = (db', o) → schema db' = ensured (schema db).
Proof.
  destruct db as [[[] [dim|] ti td tu] cc vi sq]; intros H;
    vm_compute in H; by simplify_eq.
Qed.

Lemma ensureSchema_established db :
  established db → ensureSchema db = (db, Return tt).
Proof.
  destruct db as [s cc vi sq]. unfold established. simpl. by intros ->.
Qed.

Lemma ensureSchema_fresh : established (ensureSchema fresh_database).1.
Proof. reflexivity. Qed.

Lemma established_loaded db : established db → loaded db.
Proof. unfold established, loaded. by intros ->. Qed.

Lemma ensureSchema_loaded db db' o : ensureSchema db = (db', o) → loaded db'.
Proof.
  intros H%ensureSchema_schema. unfold loaded. rewrite H.
  by destruct (tbl_vec_index (schema db)).
Qed.

Lemma loaded_schema db :
  loaded db →
  ∃ dim, schema db =
         {| tbl_code_chunks := true; tbl_vec_index := Some dim;
            trg_after_insert := true; trg_after_delete := true;
            trg_after_update := true |}.
Proof. unfold loaded, ensured. intros ->. eauto. Qed.

(** ** [DELETE] and [UPDATE] with their triggers *)

Lemma DELETE_absent i db :
  established db → code_chunks db !! i = None →
  DELETE_FROM_code_chunks i db = (db, Return tt).
Proof.
  intros Hs Hi. unfold DELETE_FROM_code_chunks, atomically. by rewrite Hs, Hi.
Qed.

Lemma DELETE_present i db :
  loaded db → is_Some (code_chunks db !! i) →
  DELETE_FROM_code_chunks i db = (delete_row i db, Return tt).
Proof.
  intros [dim Hs]%loaded_schema [c Hi]. destruct db as [s cc vi sq].
  simpl in *. subst s.
  unfold DELETE_FROM_code_chunks, atomically. simpl. by rewrite Hi.
Qed.

Lemma UPDATE_absent i new db :
  established db → code_chunks db !! i = None →
  UPDATE_code_chunks i new db = (db, Return tt).
Proof.
  intros Hs Hi. unfold UPDATE_code_chunks, atomically. by rewrite Hs, Hi.
Qed.

Lemma UPDATE_present i new db :
  established db → is_Some (code_chunks db !! i) →
  length (st_embedding new) = EMBEDDING_DIM →
  UPDATE_code_chunks i new db = (replace_row i new db, Return tt).
Proof.
  intros Hs [c Hi] Hlen. destruct db as [s cc vi sq].
  unfold established in Hs. simpl in *. subst s.
  unfold UPDATE_code_chunks, atomically. simpl. rewrite Hi. simpl.
  unfold mbind, DbM_bind, exec_vec. simpl.
  rewrite decide_False by congruence. by rewrite lookup_delete_eq.
Qed.

Lemma UPDATE_wrong_length i new db :
  established db → is_Some (code_chunks db !! i) →
  length (st_embedding new) ≠ EMBEDDING_DIM →
  UPDATE_code_chunks i new db =
    (db, Throw (SQLiteError
                  (VecDimensionMismatch EMBEDDING_DIM (length (st_embedding new))))).
Proof.
  intros Hs [c Hi] Hlen. destruct db as [s cc vi sq].
  unfold established in Hs. simpl in *. subst s.
  unfold UPDATE_code_chunks, atomically. simpl. rewrite Hi. simpl.
  unfold mbind, DbM_bind, exec_vec. simpl. by rewrite decide_True.
Qed.

Lemma delete_row_mirrored i db : mirrored db → mirrored (delete_row i db).
Proof. unfold mirrored, delete_row. simpl. intros ->. by rewrite fmap_delete. Qed.

Lemma replace_row_mirrored i new db : mirrored db → mirrored (replace_row i new db).
Proof.
  unfold mirrored, replace_row. simpl. intros ->.
  by rewrite insert_delete_eq, fmap_insert.
Qed.

(** ** The invariant over completed transactions *)

Lemma step_preserves db db' :
  established db → mirrored db → step db db' → established db' ∧ mirrored db'.
Proof.
  intros Hs Hm Hstep. destruct Hstep as [db' o H|c db' o H|fuel cs bs db' o H|i db' o H|i new db' o H].
  - rewrite ensureSchema_established in H by done. by simplify_eq.
  - unfold insertChunk in H.
    destruct (decide (valid c)) as [Hv|Hv].
    + rewrite (bind_Return _ _ _ _ _ (assertEmbeddingDim_ok _ db Hv)) in H.
      fold (INSERT_chunk c) in H.
      rewrite (INSERT_chunk_ok c db Hs Hv (mirrored_fresh db Hm)) in H.
      simplify_eq. split; [done|by apply insert_row_mirrored].
    + rewrite (bind_Throw _ _ _ _ _ (assertEmbeddingDim_throws _ db Hv)) in H.
      by simplify_eq.
  - by eapply bulkInsertChunks_loop_preserves.
  - destruct (code_chunks db !! i) as [c|] eqn:Hi.
    + rewrite DELETE_present in H by eauto using established_loaded. simplify_eq.
      split; [done|by apply delete_row_mirrored].
    + rewrite DELETE_absent in H by done. by simplify_eq.
  - destruct (code_chunks db !! i) as [c|] eqn:Hi.
    + destruct (decide (length (st_embedding new) = EMBEDDING_DIM)) as [Hl|Hl].
      * rewrite UPDATE_present in H by eauto. simplify_eq.
        split; [done|by apply replace_row_mirrored].
      * rewrite UPDATE_wrong_length in H by eauto. by simplify_eq.
    + rewrite UPDATE_absent in H by done. by simplify_eq.
Qed.

Lemma steps_preserve db db' :
  established db → mirrored db → rtc step db db' → established db' ∧ mirrored db'.
Proof.
  intros Hs Hm Hsteps. induction Hsteps as [db|db db1 db2 H1 _ IH]; [done|].
  destruct (step_preserves db db1 Hs Hm H1) as [? ?]. by apply IH.
Qed.

(** ** Query *)

#[export] Instance distance_le_total : Total distance_le.
Proof.
  intros r1 r2. unfold distance_le, sql_le.
  destruct (row_distance r1) as [x|], (row_distance r2) as [y|]; auto.
  destruct (Qlt_le_dec y x) as [Hlt|Hle].
  - right. by apply Qlt_le_weak.
  - by left.
Qed.

#[export] Instance distance_le_trans : Transitive distance_le.
Proof.
  intros r1 r2 r3. unfold distance_le, sql_le.
  destruct (row_distance r1) as [x|], (row_distance r2) as [y|],
    (row_distance r3) as [z|]; try done.
  apply Qle_trans.
Qed.


Lemma sql_limit_subseteq {A} (n : Z) (rows : list A) : sql_limit n rows ⊆ rows.
Proof.
  unfold sql_limit. destruct (n <? 0); [done|apply subseteq_take].
Qed.



Lemma join_code_chunks_Some t m r :
  join_code_chunks t m = Some r →
  r.1.1 = m.1 ∧ r.2 = m.2 ∧ t !! m.1 = Some r.1.2.
Proof.
  unfold join_code_chunks. destruct (t !! m.1) as [c|]; simpl; [|done].
  intros [= <-]. done.
Qed.

(** Matches without a metadata row contribute nothing to the join. *)
Lemma omap_join_filter t (ms : list (Z * option Q)) :
  omap (join_code_chunks t) ms =
  omap (join_code_chunks t) (filter (λ m, is_Some (t !! m.1)) ms).
Proof.
  induction ms as [|m ms IH]; [done|].
  rewrite filter_cons. case_decide as Hm.
  - csimpl. by rewrite IH.
  - csimpl. rewrite <- IH.
    unfold join_code_chunks at 1.
    destruct (t !! m.1) eqn:E; [|done]. exfalso. apply Hm. eauto.
Qed.

Section QueryProperties.
Variable vec0_knn : gmap Z Buffer → Buffer → Z → SqliteError + list (Z * option Q).

Lemma searchSimilar_matches q k db ms :
  length q = EMBEDDING_DIM → loaded db →
  vec0_knn (vec_index db) (float32ToBuffer q) k = inr ms →
  searchSimilar vec0_knn q k db = (db, Return (to_SearchResult <$> knn_rows db k ms)).
Proof.
  intros Hq [dim Hs]%loaded_schema Hknn. unfold searchSimilar.
  rewrite (bind_Return _ _ _ _ _ (assertEmbeddingDim_ok _ db Hq)).
  unfold mbind, DbM_bind, SELECT_knn. rewrite Hs. simpl. by rewrite Hknn.
Qed.

Lemma searchSimilar_vec0_error q k db e :
  length q = EMBEDDING_DIM → loaded db →
  vec0_knn (vec_index db) (float32ToBuffer q) k = inl e →
  searchSimilar vec0_knn q k db = (db, Throw (SQLiteError e)).
Proof.
  intros Hq [dim Hs]%loaded_schema Hknn. unfold searchSimilar.
  rewrite (bind_Return _ _ _ _ _ (assertEmbeddingDim_ok _ db Hq)).
  unfold mbind, DbM_bind, SELECT_knn. rewrite Hs. simpl. by rewrite Hknn.
Qed.

Lemma searchSimilar_Return q k db db' rs :
  searchSimilar vec0_knn q k db = (db', Return rs) →
  db' = db ∧ length q = EMBEDDING_DIM ∧
  ∃ ms, vec0_knn (vec_index db) (float32ToBuffer q) k = inr ms ∧
        rs = to_SearchResult <$> knn_rows db k ms.
Proof.
  unfold searchSimilar. intros H.
  destruct (decide (length q = EMBEDDING_DIM)) as [Hq|Hq].
  - rewrite (bind_Return _ _ _ _ _ (assertEmbeddingDim_ok _ db Hq)) in H.
    unfold mbind, DbM_bind, SELECT_knn in H.
    destruct (tbl_code_chunks (schema db) && _); [|done].
    destruct (vec0_knn _ _ _) as [e|ms] eqn:Hknn; [done|].
    unfold mret, DbM_ret in H. simplify_eq. eauto.
  - by rewrite (bind_Throw _ _ _ _ _ (assertEmbeddingDim_throws _ db Hq)) in H.
Qed.

Lemma knn_rows_elem_of db k ms r :
  r ∈ knn_rows db k ms →
  ∃ m, m ∈ ms ∧ r.1.1 = m.1 ∧ r.2 = m.2 ∧ code_chunks db !! m.1 = Some r.1.2.
Proof.
  unfold knn_rows. intros Hr%sql_limit_subseteq.
  rewrite merge_sort_Permutation in Hr.
  apply list_elem_of_omap in Hr as (m & Hm & Hj).
  apply join_code_chunks_Some in Hj. eauto.
Qed.



End QueryProperties.

(** * The store's contract *)

(** ** Dimension check *)

Lemma assertEmbeddingDim_bind_throws {A} arr (rest : DbM A) db :
  length arr ≠ EMBEDDING_DIM →
  (assertEmbeddingDim arr ;; rest) db =
    (db, Throw (EmbeddingLengthError EMBEDDING_DIM (length arr))).
Proof. intros H. by rewrite (bind_Throw _ _ _ _ _ (assertEmbeddingDim_throws _ db H)). Qed.

Lemma INSERT_INTO_code_chunks_no_length_error fname fpath text doc buf db db' n m :
  INSERT_INTO_code_chunks fname fpath text doc buf db ≠
    (db', Throw (EmbeddingLengthError n m)).
Proof.
  unfold INSERT_INTO_code_chunks, atomically.
  destruct (tbl_code_chunks (schema db)); [|done].
  unfold mbind, DbM_bind, fire, exec_body, code_chunks_after_insert.
  destruct (trg_after_insert (schema db)); [|done].
  unfold mbind, DbM_bind, exec_vec. simpl.
  destruct (tbl_vec_index (schema db)) as [dim|]; [|done].
  case_decide; [done|].
  destruct (vec_index db !! _); done.
Qed.

(** C1. An embedding whose length is not 384 makes [insertChunk] and
    [searchSimilar] throw the length error, with the database as it was (so
    nothing is inserted and no result is returned); with an embedding of
    length 384 neither of them throws that error. *)
Theorem dimension_mismatch_rejected
    (vec0_knn : gmap Z Buffer → Buffer → Z → SqliteError + list (Z * option Q))
    (chunk : CodeChunkRow) (q : Float32Array) (k : Z) (db : Database) :
  (length (embedding chunk) ≠ EMBEDDING_DIM →
     insertChunk chunk db =
       (db, Throw (EmbeddingLengthError EMBEDDING_DIM (length (embedding chunk))))) ∧
  (length q ≠ EMBEDDING_DIM →
     searchSimilar vec0_knn q k db =
       (db, Throw (EmbeddingLengthError EMBEDDING_DIM (length q)))) ∧
  (length (embedding chunk) = EMBEDDING_DIM →
     ∀ db' n m, insertChunk chunk db ≠ (db', Throw (EmbeddingLengthError n m))) ∧
  (length q = EMBEDDING_DIM →
     ∀ db' n m, searchSimilar vec0_knn q k db ≠ (db', Throw (EmbeddingLengthError n m))).
Proof.
  repeat split.
  - intros H. by apply assertEmbeddingDim_bind_throws.
  - intros H. by apply assertEmbeddingDim_bind_throws.
  - intros H db' n m. unfold insertChunk.
    rewrite (bind_Return _ _ _ _ _ (assertEmbeddingDim_ok _ db H)).
    apply INSERT_INTO_code_chunks_no_length_error.
  - intros H db' n m. unfold searchSimilar.
    rewrite (bind_Return _ _ _ _ _ (assertEmbeddingDim_ok _ db H)).
    unfold mbind, DbM_bind, SELECT_knn.
    destruct (tbl_code_chunks (schema db) && _); [|done].
    destruct (vec0_knn _ _ _); done.
Qed.

(** C10. A failed validation in [insertChunk] leaves the database exactly as
    it was: the check throws first, so whatever statement would follow is not
    run, and neither table (nor the AUTOINCREMENT counter) changes. *)
Theorem insertChunk_validation_atomic (chunk : CodeChunkRow) (db : Database) :
  length (embedding chunk) ≠ EMBEDDING_DIM →
  (∀ rest : DbM Z,
     (assertEmbeddingDim (embedding chunk) ;; rest) db = insertChunk chunk db) ∧
  (insertChunk chunk db).1 = db ∧
  code_chunks (insertChunk chunk db).1 = code_chunks db ∧
  vec_index (insertChunk chunk db).1 = vec_index db ∧
  sqlite_sequence (insertChunk chunk db).1 = sqlite_sequence db ∧
  (insertChunk chunk db).2 =
    Throw (EmbeddingLengthError EMBEDDING_DIM (length (embedding chunk))).
Proof.
  intros H.
  assert (insertChunk chunk db =
          (db, Throw (EmbeddingLengthError EMBEDDING_DIM (length (embedding chunk)))))
    as E by (by apply assertEmbeddingDim_bind_throws).
  rewrite E. simpl. repeat split.
  intros rest. by apply assertEmbeddingDim_bind_throws.
Qed.

Lemma insertChunk_validation_atomic_witness :
  length (embedding (sample_chunk "e.ts" 383)) ≠ EMBEDDING_DIM ∧
  (insertChunk (sample_chunk "e.ts" 383) loaded_database).1 = loaded_database.
Proof.
  split; [by vm_compute|].
  apply (insertChunk_validation_atomic (sample_chunk "e.ts" 383) loaded_database).
  by vm_compute.
Defined.

(** ** Bijection between the two stores *)

Lemma mirrored_bijection db : mirrored db ↔ bijection db.
Proof.
  unfold mirrored, bijection. split.
  - intros ->. split.
    + intros i c Hi. by rewrite lookup_fmap, Hi.
    + intros i e Hi. rewrite lookup_fmap in Hi.
      destruct (code_chunks db !! i) as [c|]; simplify_eq/=. eauto.
  - intros [H1 H2]. apply map_eq. intros i. rewrite lookup_fmap.
    destruct (code_chunks db !! i) as [c|] eqn:Hi; simpl.
    + by apply H1.
    + destruct (vec_index db !! i) as [e|] eqn:He; [|done].
      apply H2 in He as (c & Hc & _). congruence.
Qed.

Lemma bulkInsertChunks_valid fuel chunks batchSize db :
  established db → mirrored db → Forall valid chunks →
  1 ≤ batchSize → (length chunks ≤ fuel)%nat →
  bulkInsertChunks fuel chunks batchSize db = Some (insert_all chunks db, Return tt).
Proof.
  intros Hs Hm Hv Hb Hfuel.
  rewrite bulkInsertChunks_refines by done.
  assert (concat (batches_of (Z.to_nat batchSize) chunks) = chunks) as Hcat
    by (apply batches_fuel_concat; lia).
  rewrite run_batches_valid; [by rewrite Hcat|done..|].
  apply Forall_forall. intros b Hb'. apply Forall_forall. intros c Hc.
  rewrite Forall_forall in Hv. apply Hv. rewrite <- Hcat.
  apply list_elem_of_In, in_concat. exists b.
  split; by apply list_elem_of_In.
Qed.

(** C2. In every state reached from a mirrored one by completed transactions
    (module load, [insertChunk], [bulkInsertChunks], a delete, an update,
    failed or not), the rows of [code_chunks] and the entries of [vec_index]
    correspond one to one, with equal identity and embedding. In particular
    [bulkInsertChunks] over a non-empty sequence of valid chunks returns, the
    correspondence holds after it, and the [j]-th chunk is the row and the
    entry of a previously unused identity. *)
Theorem mirror_bijection (db0 db : Database) :
  established db0 → mirrored db0 → rtc step db0 db →
  bijection db ∧
  ∀ (chunks : list CodeChunkRow) (batchSize : Z) (fuel : nat),
    chunks ≠ [] → Forall valid chunks → 1 ≤ batchSize → (length chunks ≤ fuel)%nat →
    ∃ db', bulkInsertChunks fuel chunks batchSize db = Some (db', Return tt) ∧
           bijection db' ∧
           ∀ (j : nat) c, chunks !! j = Some c →
             code_chunks db !! (next_rowid db + Z.of_nat j) = None ∧
             code_chunks db' !! (next_rowid db + Z.of_nat j) = Some (stored c) ∧
             vec_index db' !! (next_rowid db + Z.of_nat j) = Some (embedding c).
Proof.
  intros Hs0 Hm0 Hsteps.
  destruct (steps_preserve db0 db Hs0 Hm0 Hsteps) as [Hs Hm].
  split; [by apply mirrored_bijection|].
  intros chunks batchSize fuel _ Hv Hb Hfuel.
  exists (insert_all chunks db). split; [by apply bulkInsertChunks_valid|].
  split; [by apply mirrored_bijection, insert_all_mirrored|].
  intros j c Hj.
  pose proof (lookup_lt_Some _ _ _ Hj) as Hlt.
  rewrite insert_all_code_chunks, insert_all_vec_index.
  rewrite !decide_True by lia.
  replace (Z.to_nat (next_rowid db + Z.of_nat j - next_rowid db)) with j by lia.
  rewrite Hj. simpl. split; [|done].
  destruct (code_chunks db !! (next_rowid db + Z.of_nat j)) eqn:E; [|done].
  assert (next_rowid db + Z.of_nat j < next_rowid db)
    by (apply next_rowid_gt; eauto).
  lia.
Qed.

Lemma mirror_bijection_witness :
  established loaded_database ∧ mirrored loaded_database ∧
  rtc step loaded_database one_row_database ∧
  bijection one_row_database ∧
  ∃ db', bulkInsertChunks 4 (take 4 five_chunks) 2 one_row_database
         = Some (db', Return tt) ∧ bijection db'.
Proof.
  assert (established loaded_database) as Hs by reflexivity.
  assert (mirrored loaded_database) as Hm by (by vm_compute).
  assert (rtc step loaded_database one_row_database) as Hsteps.
  { apply rtc_once.
    apply (step_insertChunk _ (sample_chunk "a.ts" 384) _
             (insertChunk (sample_chunk "a.ts" 384) loaded_database).2).
    unfold one_row_database. by destruct (insertChunk _ _). }
  destruct (mirror_bijection loaded_database _ Hs Hm Hsteps) as [Hbij Hbulk].
  destruct (Hbulk (take 4 five_chunks) 2 4%nat) as (db' & Hrun & Hbij' & _).
  - by vm_compute.
  - repeat constructor.
  - lia.
  - simpl; lia.
  - split; [exact Hs|]. split; [exact Hm|]. split; [exact Hsteps|].
    split; [exact Hbij|]. exists db'. split; [exact Hrun|exact Hbij'].
Defined.

(** ** Batches *)

(** C3. For a [batchSize] of at least one, [bulkInsertChunks] cuts the input,
    in order, into consecutive batches of at most [batchSize] chunks (the
    [j]-th batch is the [batchSize] chunks from position [j * batchSize]) and
    runs one transaction per batch. A batch either commits all of its chunks
    to both tables or throws and changes nothing. The call either commits
    every chunk, or throws at some batch with the batches before it committed
    and the database left as those batches made it. *)
Theorem bulkInsertChunks_batches
    (chunks : list CodeChunkRow) (batchSize : Z) (fuel : nat) (db : Database) :
  1 ≤ batchSize → (length chunks ≤ fuel)%nat → established db →
  let batches := batches_of (Z.to_nat batchSize) chunks in
  (concat batches = chunks ∧
   Forall (λ b, (1 ≤ length b ≤ Z.to_nat batchSize)%nat) batches ∧
   ∀ (j : nat) b, batches !! j = Some b →
     b = take (Z.to_nat batchSize) (drop (j * Z.to_nat batchSize) chunks)) ∧
  bulkInsertChunks fuel chunks batchSize db = Some (run_batches batches db) ∧
  (∀ b d, established d →
     insertMany b d = (insert_all b d, Return tt) ∨
     ∃ e, insertMany b d = (d, Throw e)) ∧
  (∀ cs d, committed cs d (insert_all cs d)) ∧
  (bulkInsertChunks fuel chunks batchSize db = Some (insert_all chunks db, Return tt) ∨
   ∃ done failing rest e,
     batches = done ++ failing :: rest ∧
     insertMany failing (insert_all (concat done) db) =
       (insert_all (concat done) db, Throw e) ∧
     bulkInsertChunks fuel chunks batchSize db =
       Some (insert_all (concat done) db, Throw e)).
Proof.
  intros Hb Hfuel Hs batches.
  assert (concat batches = chunks) as Hcat by (apply batches_fuel_concat; lia).
  split; [|split; [|split; [|split]]].
  - split; [done|]. split.
    + apply batches_fuel_sizes. lia.
    + intros j b. apply batches_fuel_lookup.
  - by apply bulkInsertChunks_refines.
  - intros b d. apply insertMany_cases.
  - apply insert_all_committed.
  - rewrite bulkInsertChunks_refines by done. fold batches.
    destruct (run_batches_cases batches db Hs)
      as [Hr|(done & failing & rest & e & Hsplit & Hf & Hr)].
    + left. by rewrite Hr, Hcat.
    + right. exists done, failing, rest, e. by rewrite Hr.
Qed.

Lemma next_rowid_loaded : next_rowid loaded_database = 1.
Proof. by vm_compute. Qed.

(** The scenario of the spec: five chunks in batches of two, the last chunk
    of the wrong dimension. The batches are [0,1], [2,3], [4]; the third one
    throws; the first four chunks are rows 1 to 4 of both tables and there is
    no fifth row. *)
Lemma bulkInsertChunks_batches_witness :
  (1 ≤ 2 ∧ (length five_chunks ≤ 5)%nat ∧ established loaded_database) ∧
  batches_of 2 five_chunks =
    [take 2 five_chunks; take 2 (drop 2 five_chunks); drop 4 five_chunks] ∧
  bulkInsertChunks 5 five_chunks 2 loaded_database =
    Some (insert_all (take 4 five_chunks) loaded_database,
          Throw (EmbeddingLengthError 384 383)) ∧
  (∀ i, code_chunks (insert_all (take 4 five_chunks) loaded_database) !! i =
        if decide (1 ≤ i < 5)
        then stored <$> five_chunks !! Z.to_nat (i - 1) else None) ∧
  (∀ i, vec_index (insert_all (take 4 five_chunks) loaded_database) !! i =
        if decide (1 ≤ i < 5)
        then embedding <$> five_chunks !! Z.to_nat (i - 1) else None).
Proof.
  assert (1 ≤ 2) as H1 by lia.
  assert (length five_chunks ≤ 5)%nat as H2 by (simpl; lia).
  assert (established loaded_database) as H3 by reflexivity.
  destruct (bulkInsertChunks_batches five_chunks 2 5 loaded_database H1 H2 H3)
    as (_ & Hrun & _ & _ & _).
  split; [by repeat split|]. split; [reflexivity|]. split.
  - rewrite Hrun. by vm_compute.
  - split; intros i.
    + rewrite insert_all_code_chunks, next_rowid_loaded. simpl length.
      case_decide as Hi; [rewrite decide_True by lia|by rewrite decide_False by lia].
      destruct (Z.to_nat (i - 1)) as [|[|[|[|n]]]] eqn:E; [reflexivity..|lia].
    + rewrite insert_all_vec_index, next_rowid_loaded. simpl length.
      case_decide as Hi; [rewrite decide_True by lia|by rewrite decide_False by lia].
      destruct (Z.to_nat (i - 1)) as [|[|[|[|n]]]] eqn:E; [reflexivity..|lia].
Defined.

(** ** Search results *)







(** C8. A match of the index whose identity has no row in [code_chunks] is
    left out of the results without any error: whenever the index lookup
    answers, [searchSimilar] returns, its results are those it would return
    had such matches not been reported at all, and every result is a row of
    the table. *)
Theorem searchSimilar_skips_missing_metadata
    (vec0_knn : gmap Z Buffer → Buffer → Z → SqliteError + list (Z * option Q))
    (q : Float32Array) (k : Z) (db : Database) (ms : list (Z * option Q)) :
  loaded db → length q = EMBEDDING_DIM →
  vec0_knn (vec_index db) (float32ToBuffer q) k = inr ms →
  ∃ rs, searchSimilar vec0_knn q k db = (db, Return rs) ∧
        rs = to_SearchResult <$>
               knn_rows db k (filter (λ m, is_Some (code_chunks db !! m.1)) ms) ∧
        (∀ r, r ∈ rs → is_Some (code_chunks db !! id r)) ∧
        (∀ m, m ∈ ms → code_chunks db !! m.1 = None → m.1 ∉ id <$> rs).
Proof.
  intros Hs Hq Hknn.
  exists (to_SearchResult <$> knn_rows db k ms).
  split; [by apply searchSimilar_matches|].
  assert (∀ r, r ∈ to_SearchResult <$> knn_rows db k ms →
               is_Some (code_chunks db !! id r)) as Hrows.
  { intros r (row & -> & Hrow)%list_elem_of_fmap. simpl.
    apply knn_rows_elem_of in Hrow as (m & _ & -> & _ & Hc). eauto. }
  split; [|split; [done|]].
  - unfold knn_rows. by rewrite <- omap_join_filter.
  - intros m _ Hnone (r & Hid & Hr)%list_elem_of_fmap.
    apply Hrows in Hr as [c Hc]. congruence.
Qed.

Lemma searchSimilar_skips_missing_metadata_witness :
  (7, Some (1 # 4)%Q) ∈ take 3 sample_matches ∧
  code_chunks orphan_database !! 7 = None ∧
  is_Some (vec_index orphan_database !! 7) ∧
  ∃ rs, searchSimilar (vec0_canned sample_matches) (new_Float32Array 384) 3
          orphan_database = (orphan_database, Return rs) ∧
        7 ∉ id <$> rs.
Proof.
  assert ((7, Some (1 # 4)%Q) ∈ take 3 sample_matches) as Hin
    by (simpl; apply list_elem_of_further, list_elem_of_here).
  assert (code_chunks orphan_database !! 7 = None) as Hnone by (by vm_compute).
  destruct (searchSimilar_skips_missing_metadata (vec0_canned sample_matches)
              (new_Float32Array 384) 3 orphan_database (take 3 sample_matches))
    as (rs & Hrun & _ & _ & Hskip).
  - reflexivity.
  - by vm_compute.
  - reflexivity.
  - split; [done|]. split; [done|]. split; [by eexists|].
    exists rs. split; [done|]. by apply (Hskip _ Hin).
Defined.

(** ** Deletion and replacement *)

(** C6. Deleting an existing row of [code_chunks] removes, in the same
    statement, the entry of [vec_index] with that identity and nothing else;
    a delete that throws changes nothing; and after the deletion no search,
    for any query, [k] and index lookup, returns a result with that identity. *)
Theorem delete_removes_mirror
    (vec0_knn : gmap Z Buffer → Buffer → Z → SqliteError + list (Z * option Q))
    (i : Z) (db : Database) :
  loaded db → is_Some (code_chunks db !! i) →
  ∃ db', DELETE_FROM_code_chunks i db = (db', Return tt) ∧
         code_chunks db' = delete i (code_chunks db) ∧
         vec_index db' = delete i (vec_index db) ∧
         code_chunks db' !! i = None ∧ vec_index db' !! i = None ∧
         (∀ d d' e, DELETE_FROM_code_chunks i d = (d', Throw e) → d' = d) ∧
         ∀ q k d rs, searchSimilar vec0_knn q k db' = (d, Return rs) →
                     i ∉ id <$> rs.
Proof.
  intros Hs Hi. exists (delete_row i db).
  split; [by apply DELETE_present|].
  split; [done|]. split; [done|].
  split; [apply lookup_delete_eq|]. split; [apply lookup_delete_eq|].
  split; [intros d d' e; apply atomically_Throw|].
  intros q k d rs (-> & _ & ms & _ & ->)%searchSimilar_Return.
  intros (r & Hid & (row & -> & Hrow)%list_elem_of_fmap)%list_elem_of_fmap.
  apply knn_rows_elem_of in Hrow as (m & _ & Hm & _ & Hc).
  simpl in Hid. rewrite <- Hm, <- Hid in Hc.
  simpl in Hc. by rewrite lookup_delete_eq in Hc.
Qed.

Lemma delete_removes_mirror_witness :
  loaded four_rows_database ∧
  is_Some (code_chunks four_rows_database !! 3) ∧
  is_Some (vec_index four_rows_database !! 3) ∧
  ∃ db', DELETE_FROM_code_chunks 3 four_rows_database = (db', Return tt) ∧
         code_chunks db' !! 3 = None ∧ vec_index db' !! 3 = None ∧
         ∀ d rs, searchSimilar (vec0_canned sample_matches) (new_Float32Array 384) 3 db'
                 = (d, Return rs) → 3 ∉ id <$> rs.
Proof.
  assert (loaded four_rows_database) as Hs by reflexivity.
  assert (is_Some (code_chunks four_rows_database !! 3)) as Hi by (by eexists).
  destruct (delete_removes_mirror (vec0_canned sample_matches) 3
              four_rows_database Hs Hi)
    as (db' & Hrun & _ & _ & Hc & Hv & _ & Hsearch).
  split; [done|]. split; [done|]. split; [by eexists|].
  exists db'. split; [done|]. split; [done|]. split; [done|].
  intros d rs. apply Hsearch.
Defined.

(** C7. Replacing an existing row fires a trigger body made of a delete and
    then an insert on [vec_index]: after the delete there is no entry for the
    identity, after the insert there is the one entry with the new embedding,
    and that is the state the update statement leaves. When the new embedding
    is refused by the index the whole statement is undone. The trigger
    language has no statement that edits an entry in place. *)
Theorem update_replaces_mirror (i : Z) (new : StoredChunk) (db : Database) :
  established db → is_Some (code_chunks db !! i) →
  code_chunks_after_update i i new = [VecDelete i; VecInsert i (st_embedding new)] ∧
  (length (st_embedding new) = EMBEDDING_DIM →
   ∃ db1 db2,
     exec_vec (VecDelete i) (set_code_chunks (<[i := new]> (code_chunks db)) db)
       = (db1, Return tt) ∧
     vec_index db1 !! i = None ∧
     exec_vec (VecInsert i (st_embedding new)) db1 = (db2, Return tt) ∧
     UPDATE_code_chunks i new db = (db2, Return tt) ∧
     code_chunks db2 !! i = Some new ∧
     vec_index db2 !! i = Some (st_embedding new) ∧
     (∀ j, j ≠ i → code_chunks db2 !! j = code_chunks db !! j ∧
                   vec_index db2 !! j = vec_index db !! j)) ∧
  (length (st_embedding new) ≠ EMBEDDING_DIM →
   ∃ e, UPDATE_code_chunks i new db = (db, Throw e)).
Proof.
  intros Hs Hi. split; [done|]. split.
  - intros Hlen.
    exists (set_vec_index (delete i (vec_index db))
              (set_code_chunks (<[i := new]> (code_chunks db)) db)),
           (replace_row i new db).
    split; [unfold exec_vec; simpl; by rewrite Hs|].
    split; [apply lookup_delete_eq|].
    split.
    { unfold exec_vec. simpl. rewrite Hs. simpl.
      rewrite decide_False by congruence. rewrite lookup_delete_eq.
      unfold replace_row, set_vec_index. simpl. by rewrite Hs. }
    split; [by apply UPDATE_present|].
    split; [apply lookup_insert_eq|]. split; [apply lookup_insert_eq|].
    intros j Hj. unfold replace_row. simpl.
    rewrite !lookup_insert_ne by done. by rewrite lookup_delete_ne by done.
  - intros Hlen. eexists. by apply UPDATE_wrong_length.
Qed.

Lemma update_replaces_mirror_witness :
  established four_rows_database ∧
  is_Some (code_chunks four_rows_database !! 3) ∧
  vec_index four_rows_database !! 3 = Some (new_Float32Array 384) ∧
  ∃ db2, UPDATE_code_chunks 3 replacement_row four_rows_database = (db2, Return tt) ∧
         vec_index db2 !! 3 = Some (replicate 384 (S754_finite false 1 0)).
Proof.
  assert (established four_rows_database) as Hs by reflexivity.
  assert (is_Some (code_chunks four_rows_database !! 3)) as Hi by (by eexists).
  destruct (update_replaces_mirror 3 replacement_row four_rows_database Hs Hi)
    as (_ & Hok & _).
  destruct Hok as (db1 & db2 & _ & _ & _ & Hrun & _ & Hv & _); [by vm_compute|].
  split; [done|]. split; [done|]. split; [by vm_compute|].
  exists db2. by split.
Defined.

(** ** The embedding wrapper *)

(** C9. When the embedding pipeline throws for a text, [calculateEmbedding]
    (in both versions of the CLI) does not pass the failure on: its promise is
    fulfilled with the vector of 384 zeros. *)
Theorem calculateEmbedding_fallback
    (embeddingPipeline : string → PipelineResult) (text : string) :
  embeddingPipeline text = PipelineThrows →
  Cli.calculateEmbedding embeddingPipeline text
    = Fulfilled (new_Float32Array EMBEDDING_DIM) ∧
  CliLegacy.calculateEmbedding embeddingPipeline text
    = Fulfilled (new_Float32Array EMBEDDING_DIM) ∧
  length (new_Float32Array EMBEDDING_DIM) = 384%nat ∧
  Forall (λ x, x = S754_zero false) (new_Float32Array EMBEDDING_DIM).
Proof.
  intros H.
  unfold Cli.calculateEmbedding, CliLegacy.calculateEmbedding.
  rewrite H. split; [done|]. split; [done|].
  split; [apply length_replicate|]. by apply Forall_replicate.
Qed.

Lemma calculateEmbedding_fallback_witness :
  Cli.calculateEmbedding (λ _, PipelineThrows) "fn main"
    = Fulfilled (replicate 384 (S754_zero false)) ∧
  CliLegacy.calculateEmbedding (λ _, PipelineThrows) "fn main"
    = Fulfilled (replicate 384 (S754_zero false)).
Proof.
  destruct (calculateEmbedding_fallback (λ _, PipelineThrows) "fn main" eq_refl)
    as (H1 & H2 & _).
  by split.
Defined.

(** Whatever the pipeline does, neither version of the wrapper rejects, and
    the vector it yields has 384 elements. *)
Lemma calculateEmbedding_total
    (embeddingPipeline : string → PipelineResult) (text : string) :
  (∃ v, Cli.calculateEmbedding embeddingPipeline text = Fulfilled v ∧
        length v = EMBEDDING_DIM) ∧
  (∃ v, CliLegacy.calculateEmbedding embeddingPipeline text = Fulfilled v ∧
        length v = EMBEDDING_DIM).
Proof.
  unfold Cli.calculateEmbedding, CliLegacy.calculateEmbedding.
  destruct (embeddingPipeline text) as [|[arr|]]; simpl.
  - split; eexists; (split; [done|apply length_replicate]).
  - case_decide as Hlen.
    + split; eexists; (split; [done|]); [|apply length_replicate].
      unfold Float32Array_set, new_Float32Array.
      rewrite length_app, length_drop, length_take, length_replicate. lia.
    + split; eexists; (split; [done|]); by destruct (decide (length arr = EMBEDDING_DIM)).
  - split; eexists; (split; [done|apply length_replicate]).
Qed.

(** ** Schema establishment across process starts *)

(** On a file whose index has another dimension, loading the module does not
    fail: every statement is an [IF NOT EXISTS] and the index is kept. *)
Lemma ensureSchema_other_dimension_succeeds :
  tbl_vec_index (schema other_dimension_database) = Some 128%nat ∧
  128%nat ≠ EMBEDDING_DIM ∧
  ensureSchema other_dimension_database = (other_dimension_database, Return tt).
Proof. split; [done|]. split; [by vm_compute|reflexivity]. Qed.

(** What such a file then does to a valid chunk: the index refuses it. *)
Lemma insertChunk_other_dimension :
  insertChunk (sample_chunk "a.ts" 384) other_dimension_database =
    (other_dimension_database, Throw (SQLiteError (VecDimensionMismatch 128 384))).
Proof. by vm_compute. Qed.

(** C5, as the code has it. Loading the module never fails and is
    idempotent: a second load changes nothing. What exists is kept as it is,
    in particular an index that exists keeps its dimension, whatever it is,
    and its entries; an index that is missing is created with dimension 384. *)
Theorem ensureSchema_idempotent (db : Database) :
  ∃ db1, ensureSchema db = (db1, Return tt) ∧
         ensureSchema db1 = (db1, Return tt) ∧
         schema db1 = ensured (schema db) ∧
         (∀ dim, tbl_vec_index (schema db) = Some dim →
                 tbl_vec_index (schema db1) = Some dim ∧ vec_index db1 = vec_index db) ∧
         (tbl_vec_index (schema db) = None →
          tbl_vec_index (schema db1) = Some EMBEDDING_DIM) ∧
         (tbl_code_chunks (schema db) = true → code_chunks db1 = code_chunks db).
Proof.
  destruct db as [[[] [d|] ti td tu] cc vi sq]; eexists;
    (split; [reflexivity|]); (split; [reflexivity|]); (split; [reflexivity|]);
    repeat split; simpl; intros; by simplify_eq.
Qed.

(** * Further properties of the store *)

(** ** [insertChunk] *)

(** X1. On a mirrored database with the module's schema, [insertChunk] of a
    valid chunk returns an identity no row had and that is larger than every
    identity in use; the chunk is then the row and the index entry of that
    identity, every other identity is untouched and the stores still mirror
    each other. *)
Theorem insertChunk_stores (c : CodeChunkRow) (db : Database) :
  established db → mirrored db → valid c →
  ∃ db', insertChunk c db = (db', Return (next_rowid db)) ∧
         code_chunks db !! next_rowid db = None ∧
         (∀ i, is_Some (code_chunks db !! i) → i < next_rowid db) ∧
         code_chunks db' !! next_rowid db = Some (stored c) ∧
         vec_index db' !! next_rowid db = Some (embedding c) ∧
         (∀ j, j ≠ next_rowid db →
               code_chunks db' !! j = code_chunks db !! j ∧
               vec_index db' !! j = vec_index db !! j) ∧
         mirrored db'.
Proof.
  intros Hs Hm Hv. exists (insert_row c db). split.
  { unfold insertChunk.
    rewrite (bind_Return _ _ _ _ _ (assertEmbeddingDim_ok _ db Hv)).
    apply (INSERT_chunk_ok c db Hs Hv (mirrored_fresh db Hm)). }
  split; [apply next_rowid_fresh|]. split; [apply next_rowid_gt|].
  unfold insert_row. simpl.
  split; [apply lookup_insert_eq|]. split; [apply lookup_insert_eq|].
  split; [|by apply (insert_row_mirrored c db)].
  intros j Hj. by rewrite !lookup_insert_ne.
Qed.

Lemma insertChunk_stores_witness :
  (insertChunk (sample_chunk "e.ts" 384) four_rows_database).2 = Return 5 ∧
  code_chunks (insertChunk (sample_chunk "e.ts" 384) four_rows_database).1 !! 5
    = Some (stored (sample_chunk "e.ts" 384)).
Proof.
  destruct (insertChunk_stores (sample_chunk "e.ts" 384) four_rows_database)
    as (db' & Hrun & _ & _ & Hrow & _).
  - reflexivity.
  - by vm_compute.
  - by vm_compute.
  - rewrite Hrun. simpl. split; [by vm_compute|].
    replace 5 with (next_rowid four_rows_database) by (by vm_compute).
    exact Hrow.
Defined.

Lemma insertChunk_outcomes (c : CodeChunkRow) (db : Database) :
  established db →
  (¬ valid c →
   insertChunk c db =
     (db, Throw (EmbeddingLengthError EMBEDDING_DIM (length (embedding c))))) ∧
  (valid c → is_Some (vec_index db !! next_rowid db) →
   insertChunk c db =
     (db, Throw (SQLiteError (VecUniqueConstraint (next_rowid db))))) ∧
  (valid c → vec_index db !! next_rowid db = None →
   insertChunk c db = (insert_row c db, Return (next_rowid db))).
Proof.
  intros Hs. split; [|split].
  - intros Hv. by apply assertEmbeddingDim_bind_throws.
  - intros Hv [b Hb]. unfold insertChunk.
    rewrite (bind_Return _ _ _ _ _ (assertEmbeddingDim_ok _ db Hv)).
    unfold INSERT_INTO_code_chunks, atomically.
    rewrite Hs. simpl.
    unfold mbind, DbM_bind, exec_vec. simpl. rewrite Hs. simpl.
    unfold float32ToBuffer. rewrite decide_False by (unfold valid in Hv; congruence).
    by rewrite Hb.
  - intros Hv Hfresh. unfold insertChunk.
    rewrite (bind_Return _ _ _ _ _ (assertEmbeddingDim_ok _ db Hv)).
    by apply (INSERT_chunk_ok c db Hs Hv Hfresh).
Qed.

(** X2. With the module's schema in place, [insertChunk] either adds the
    chunk to both tables or throws and leaves the database as it was: a wrong
    length is the length error, an index entry already sitting under the next
    identity is the index's uniqueness error, and no metadata row is ever kept
    without its index entry. *)
Theorem insertChunk_all_or_nothing (c : CodeChunkRow) (db : Database) :
  established db →
  (¬ valid c →
   insertChunk c db =
     (db, Throw (EmbeddingLengthError EMBEDDING_DIM (length (embedding c))))) ∧
  (valid c → is_Some (vec_index db !! next_rowid db) →
   insertChunk c db =
     (db, Throw (SQLiteError (VecUniqueConstraint (next_rowid db))))) ∧
  (valid c → vec_index db !! next_rowid db = None →
   insertChunk c db = (insert_row c db, Return (next_rowid db))).
Proof. apply insertChunk_outcomes. Qed.

Lemma insertChunk_all_or_nothing_witness :
  established blocked_database ∧
  is_Some (vec_index blocked_database !! next_rowid blocked_database) ∧
  insertChunk (sample_chunk "e.ts" 384) blocked_database =
    (blocked_database, Throw (SQLiteError (VecUniqueConstraint 5))).
Proof.
  assert (established blocked_database) as Hs by reflexivity.
  assert (is_Some (vec_index blocked_database !! next_rowid blocked_database)) as Hb
    by (by eexists).
  destruct (insertChunk_all_or_nothing (sample_chunk "e.ts" 384) blocked_database Hs)
    as (_ & Hblocked & _).
  split; [done|]. split; [done|].
  rewrite Hblocked; [by vm_compute|by vm_compute|done].
Defined.

(** X3. On a loaded file whose index was created with a dimension other than
    384 nothing can be inserted: [insertChunk] throws for every chunk (the
    length check refuses what the index would take, the index refuses what
    the check lets through) and the database stays as it was. *)
Theorem insertChunk_other_dimension_never_inserts
    (c : CodeChunkRow) (db : Database) (dim : nat) :
  loaded db → tbl_vec_index (schema db) = Some dim → dim ≠ EMBEDDING_DIM →
  ∃ e, insertChunk c db = (db, Throw e) ∧
       (valid c → e = SQLiteError (VecDimensionMismatch dim EMBEDDING_DIM)).
Proof.
  intros [dim' Hs]%loaded_schema Hdim Hne.
  rewrite Hs in Hdim. simpl in Hdim. simplify_eq.
  destruct (decide (valid c)) as [Hv|Hv].
  - exists (SQLiteError (VecDimensionMismatch dim EMBEDDING_DIM)). split; [|done].
    unfold insertChunk.
    rewrite (bind_Return _ _ _ _ _ (assertEmbeddingDim_ok _ db Hv)).
    unfold INSERT_INTO_code_chunks, atomically.
    rewrite Hs. simpl.
    unfold mbind, DbM_bind, exec_vec. simpl. rewrite Hs. simpl.
    unfold float32ToBuffer. unfold valid in Hv. rewrite Hv.
    by rewrite decide_True by congruence.
  - eexists. split; [by apply assertEmbeddingDim_bind_throws|done].
Qed.

Lemma insertChunk_other_dimension_never_inserts_witness :
  loaded other_dimension_database ∧
  ∃ e, insertChunk (sample_chunk "a.ts" 384) other_dimension_database
       = (other_dimension_database, Throw e).
Proof.
  assert (loaded other_dimension_database) as Hl by reflexivity.
  destruct (insertChunk_other_dimension_never_inserts (sample_chunk "a.ts" 384)
              other_dimension_database 128 Hl eq_refl) as (e & Hrun & _).
  - by vm_compute.
  - split; [done|]. by exists e.
Defined.

(** ** Identities are not reused *)

Lemma seq_bound_loaded_database : seq_bound loaded_database.
Proof. split; [done|]. intros i [c Hc]. by vm_compute in Hc. Qed.

Lemma seq_bound_insert_row c db : seq_bound db → seq_bound (insert_row c db).
Proof.
  intros [H0 Hb]. pose proof (next_rowid_gt_sequence db).
  split; simpl; [lia|]. intros i.
  destruct (decide (i = next_rowid db)) as [->|Hne]; [lia|].
  rewrite lookup_insert_ne by done. intros Hi%Hb. lia.
Qed.

Lemma seq_bound_insert_all cs db : seq_bound db → seq_bound (insert_all cs db).
Proof.
  revert db. induction cs as [|c cs IH]; intros db H; [done|].
  apply IH, seq_bound_insert_row, H.
Qed.

Lemma sqlite_sequence_insert_all cs db :
  sqlite_sequence db ≤ sqlite_sequence (insert_all cs db).
Proof.
  revert db. induction cs as [|c cs IH]; intros db; [done|].
  change (insert_all (c :: cs) db) with (insert_all cs (insert_row c db)).
  etrans; [|apply IH]. simpl. pose proof (next_rowid_gt_sequence db). lia.
Qed.

Lemma seq_bound_next_rowid db : seq_bound db → next_rowid db = sqlite_sequence db + 1.
Proof.
  intros [H0 Hb]. unfold next_rowid.
  pose proof (max_rowid_le (code_chunks db) _ H0 Hb). lia.
Qed.

(** What a completed batch loop leaves, whatever its fuel and [batchSize]: the
    database with some of the chunks committed. *)
Lemma bulkInsertChunks_loop_shape fuel chunks batchSize i db db' o :
  established db →
  bulkInsertChunks_loop fuel chunks batchSize i db = Some (db', o) →
  ∃ cs, db' = insert_all cs db.
Proof.
  revert i db. induction fuel as [|fuel IH]; intros i db Hs H; simpl in H.
  - destruct (i <? Z.of_nat (length chunks)); simplify_eq. by exists [].
  - destruct (i <? Z.of_nat (length chunks)); [|simplify_eq; by exists []].
    destruct (insertMany_cases (js_slice chunks i (i + batchSize)) db Hs)
      as [Hb|[e Hb]]; rewrite Hb in H.
    + apply IH in H as [cs ->]; [|by apply insert_all_established].
      eexists. by rewrite <- insert_all_app.
    + simplify_eq. by exists [].
Qed.

(** The shape of every completed transaction on a mirrored database. *)
Lemma step_shape db db' :
  established db → mirrored db → step db db' →
  (∃ cs, db' = insert_all cs db) ∨
  (∃ i, is_Some (code_chunks db !! i) ∧ db' = delete_row i db) ∨
  (∃ i new, is_Some (code_chunks db !! i) ∧ db' = replace_row i new db).
Proof.
  intros Hs Hm Hstep.
  destruct Hstep as [db' o H|c db' o H|fuel cs bs db' o H|i db' o H|i new db' o H].
  - rewrite ensureSchema_established in H by done. simplify_eq. left. by exists [].
  - left. destruct (decide (valid c)) as [Hv|Hv].
    + destruct (insertChunk_outcomes c db Hs) as (_ & _ & Hok).
      rewrite (Hok Hv (mirrored_fresh db Hm)) in H. simplify_eq. by exists [c].
    + destruct (insertChunk_outcomes c db Hs) as (Hbad & _).
      rewrite (Hbad Hv) in H. simplify_eq. by exists [].
  - left. by eapply bulkInsertChunks_loop_shape.
  - destruct (code_chunks db !! i) as [c|] eqn:Hi.
    + rewrite DELETE_present in H by eauto using established_loaded.
      simplify_eq. right. left. eauto.
    + rewrite DELETE_absent in H by done. simplify_eq. left. by exists [].
  - destruct (code_chunks db !! i) as [c|] eqn:Hi.
    + destruct (decide (length (st_embedding new) = EMBEDDING_DIM)) as [Hl|Hl].
      * rewrite UPDATE_present in H by eauto. simplify_eq. right. right. eauto.
      * rewrite UPDATE_wrong_length in H by eauto. simplify_eq. left. by exists [].
    + rewrite UPDATE_absent in H by done. simplify_eq. left. by exists [].
Qed.

Lemma step_seq_bound db db' :
  established db → mirrored db → seq_bound db → step db db' →
  seq_bound db' ∧ sqlite_sequence db ≤ sqlite_sequence db'.
Proof.
  intros Hs Hm Hb Hstep.
  destruct (step_shape db db' Hs Hm Hstep)
    as [[cs ->]|[(i & Hi & ->)|(i & new & Hi & ->)]].
  - split; [by apply seq_bound_insert_all|apply sqlite_sequence_insert_all].
  - split; [|done]. destruct Hb as [H0 Hb]. split; [done|]. simpl.
    intros j. destruct (decide (j = i)) as [->|Hne].
    + rewrite lookup_delete_eq. by intros [? ?].
    + rewrite lookup_delete_ne by done. apply Hb.
  - split; [|done]. destruct Hb as [H0 Hb]. split; [done|]. simpl.
    intros j. destruct (decide (j = i)) as [->|Hne]; [intros _; by apply Hb|].
    rewrite lookup_insert_ne by done. apply Hb.
Qed.

Lemma steps_seq_bound db db' :
  established db → mirrored db → seq_bound db → rtc step db db' →
  seq_bound db' ∧ sqlite_sequence db ≤ sqlite_sequence db'.
Proof.
  intros Hs Hm Hb Hsteps. induction Hsteps as [db|db db1 db2 H1 _ IH]; [done|].
  destruct (step_preserves db db1 Hs Hm H1) as [Hs1 Hm1].
  destruct (step_seq_bound db db1 Hs Hm Hb H1) as [Hb1 Hle1].
  destruct (IH Hs1 Hm1 Hb1) as [Hb2 Hle2]. split; [done|lia].
Qed.

(** X4. An identity is assigned once: if a row has identity [i] at some point
    of a history of completed transactions that starts from a newly loaded
    database, then whatever happens afterwards (deleting that row included)
    every later [insertChunk] that returns, returns an identity larger than
    [i]. *)
Theorem identity_never_reused (db db2 db3 : Database) (i j : Z) (c : CodeChunkRow) :
  rtc step loaded_database db → is_Some (code_chunks db !! i) →
  rtc step db db2 → insertChunk c db2 = (db3, Return j) →
  i < j.
Proof.
  intros Hsteps Hi Hsteps2 Hins.
  assert (established loaded_database) as Hs0 by reflexivity.
  assert (mirrored loaded_database) as Hm0 by (by vm_compute).
  destruct (steps_preserve _ _ Hs0 Hm0 Hsteps) as [Hs Hm].
  destruct (steps_seq_bound _ _ Hs0 Hm0 seq_bound_loaded_database Hsteps) as [Hb _].
  destruct (steps_preserve _ _ Hs Hm Hsteps2) as [Hs2 Hm2].
  destruct (steps_seq_bound _ _ Hs Hm Hb Hsteps2) as [Hb2 Hle].
  assert (j = next_rowid db2) as ->.
  { destruct (decide (valid c)) as [Hv|Hv].
    - destruct (insertChunk_outcomes c db2 Hs2) as (_ & _ & Hok).
      rewrite (Hok Hv (mirrored_fresh db2 Hm2)) in Hins. by simplify_eq.
    - destruct (insertChunk_outcomes c db2 Hs2) as (Hbad & _).
      rewrite (Hbad Hv) in Hins. by simplify_eq. }
  rewrite (seq_bound_next_rowid db2 Hb2).
  destruct Hb as [_ Hb]. apply Hb in Hi. lia.
Qed.

Lemma identity_never_reused_witness :
  rtc step loaded_database four_rows_database ∧
  is_Some (code_chunks four_rows_database !! 3) ∧
  rtc step four_rows_database (delete_row 3 four_rows_database) ∧
  insertChunk (sample_chunk "e.ts" 384) (delete_row 3 four_rows_database) =
    (insert_row (sample_chunk "e.ts" 384) (delete_row 3 four_rows_database), Return 5) ∧
  3 < 5.
Proof.
  assert (rtc step loaded_database four_rows_database) as H1.
  { apply rtc_once.
    apply (step_bulkInsertChunks _ 4 (take 4 five_chunks) 2 _ (Return tt)).
    by vm_compute. }
  assert (is_Some (code_chunks four_rows_database !! 3)) as H2 by (by eexists).
  assert (rtc step four_rows_database (delete_row 3 four_rows_database)) as H3.
  { apply rtc_once. apply (step_delete _ 3 _ (Return tt)). by vm_compute. }
  assert (insertChunk (sample_chunk "e.ts" 384) (delete_row 3 four_rows_database) =
          (insert_row (sample_chunk "e.ts" 384) (delete_row 3 four_rows_database),
           Return 5)) as H4 by (by vm_compute).
  split; [exact H1|]. split; [exact H2|]. split; [exact H3|]. split; [exact H4|].
  exact (identity_never_reused _ _ _ 3 5 _ H1 H2 H3 H4).
Defined.

(** ** [bulkInsertChunks]: edge cases of [batchSize] *)

Lemma bulkInsertChunks_loop_nonpositive fuel chunks batchSize i db db' :
  batchSize ≤ 0 → chunks ≠ [] → i ≤ 0 →
  bulkInsertChunks_loop fuel chunks batchSize i db ≠ Some (db', Return tt).
Proof.
  intros Hb Hne. revert i db.
  assert (0 < Z.of_nat (length chunks)) as Hlen
    by (destruct chunks; [done|simpl; lia]).
  induction fuel as [|fuel IH]; intros i db Hi; simpl;
    (destruct (Z.ltb_spec i (Z.of_nat (length chunks))); [|lia]); [done|].
  destruct (insertMany _ db) as [d [[]|e]]; [|done].
  apply IH. lia.
Qed.

(** X5. With a [batchSize] of zero or less, [bulkInsertChunks] on a non-empty
    input never completes: however many iterations it is given, it has either
    not returned yet or it has thrown. *)
Theorem bulkInsertChunks_nonpositive_batchSize
    (fuel : nat) (chunks : list CodeChunkRow) (batchSize : Z) (db db' : Database) :
  batchSize ≤ 0 → chunks ≠ [] →
  bulkInsertChunks fuel chunks batchSize db ≠ Some (db', Return tt).
Proof.
  intros Hb Hne. by apply bulkInsertChunks_loop_nonpositive.
Qed.

Lemma bulkInsertChunks_nonpositive_batchSize_witness :
  -2 ≤ 0 ∧ five_chunks ≠ [] ∧
  bulkInsertChunks 50 five_chunks (-2) loaded_database = None.
Proof.
  assert (-2 ≤ 0) as H1 by lia.
  assert (five_chunks ≠ []) as H2 by done.
  split; [exact H1|]. split; [exact H2|].
  pose proof (bulkInsertChunks_nonpositive_batchSize 50 five_chunks (-2)
                loaded_database) as H.
  destruct (bulkInsertChunks 50 five_chunks (-2) loaded_database)
    as [[d [[]|e]]|] eqn:E; [|by vm_compute in E|done].
  exfalso. by apply (H d).
Defined.

Lemma batches_of_single {A} (n : nat) (l : list A) :
  l ≠ [] → (length l ≤ n)%nat → batches_of n l = [l].
Proof.
  intros Hne Hn. unfold batches_of.
  destruct l as [|x l]; [done|].
  change (batches_fuel (length (x :: l)) n (x :: l))
    with (take n (x :: l) :: batches_fuel (length l) n (drop n (x :: l))).
  rewrite take_ge by done. rewrite drop_ge by done.
  by rewrite batches_fuel_nil.
Qed.

Lemma bulkInsertChunks_fits_one_batch
    (fuel : nat) (chunks : list CodeChunkRow) (batchSize : Z) (db : Database) :
  established db → 1 ≤ batchSize →
  Z.of_nat (length chunks) ≤ batchSize → (length chunks ≤ fuel)%nat →
  bulkInsertChunks fuel chunks batchSize db = Some (insert_all chunks db, Return tt) ∨
  ∃ e, bulkInsertChunks fuel chunks batchSize db = Some (db, Throw e).
Proof.
  intros Hs Hb Hlen Hfuel. rewrite bulkInsertChunks_refines by done.
  destruct chunks as [|c cs]; [by left|].
  rewrite batches_of_single by (done || lia).
  rewrite run_batches_cons.
  destruct (insertMany_cases (c :: cs) db Hs) as [H|[e H]].
  - left. by rewrite (bind_Return _ _ _ _ _ H).
  - right. exists e. by rewrite (bind_Throw _ _ _ _ _ H).
Qed.

(** X6. When the input fits in one batch ([batchSize] at least its length,
    as with the default of 500 for up to 500 chunks), the whole call is one
    transaction: either every chunk is committed or the call throws and the
    database is as it was. *)
Theorem bulkInsertChunks_single_batch
    (fuel : nat) (chunks : list CodeChunkRow) (batchSize : Z) (db : Database) :
  established db → 1 ≤ batchSize →
  Z.of_nat (length chunks) ≤ batchSize → (length chunks ≤ fuel)%nat →
  bulkInsertChunks fuel chunks batchSize db = Some (insert_all chunks db, Return tt) ∨
  ∃ e, bulkInsertChunks fuel chunks batchSize db = Some (db, Throw e).
Proof. apply bulkInsertChunks_fits_one_batch. Qed.

Lemma bulkInsertChunks_single_batch_witness :
  established loaded_database ∧
  Z.of_nat (length five_chunks) ≤ default_batchSize ∧
  bulkInsertChunks 5 five_chunks default_batchSize loaded_database =
    Some (loaded_database, Throw (EmbeddingLengthError 384 383)).
Proof.
  assert (established loaded_database) as Hs by reflexivity.
  assert (Z.of_nat (length five_chunks) ≤ default_batchSize) as Hlen
    by (by vm_compute).
  split; [exact Hs|]. split; [exact Hlen|].
  destruct (bulkInsertChunks_single_batch 5 five_chunks default_batchSize
              loaded_database Hs) as [H|[e H]].
  - by vm_compute.
  - exact Hlen.
  - simpl. lia.
  - by vm_compute in H.
  - clear H. by vm_compute.
Defined.

Lemma run_batches_first_invalid fuel (n : nat) pre c post db :
  (1 ≤ n)%nat → established db → mirrored db →
  Forall valid pre → ¬ valid c →
  (length (pre ++ c :: post) ≤ fuel)%nat →
  run_batches (batches_fuel fuel n (pre ++ c :: post)) db =
    (insert_all (take (n * (length pre / n)) pre) db,
     Throw (EmbeddingLengthError EMBEDDING_DIM (length (embedding c)))).
Proof.
  intros Hn. revert pre db.
  induction fuel as [|fuel IH]; intros pre db Hs Hm Hpre Hc Hfuel.
  { rewrite length_app in Hfuel. simpl in Hfuel. lia. }
  destruct (pre ++ c :: post) as [|x l] eqn:El; [by destruct pre|].
  change (batches_fuel (S fuel) n (x :: l))
    with (take n (x :: l) :: batches_fuel fuel n (drop n (x :: l))).
  rewrite <- El in *. clear El x l. rewrite run_batches_cons.
  destruct (decide (length pre < n)%nat) as [Hlt|Hge].
  - rewrite take_app. replace (n - length pre)%nat with (S (n - length pre - 1)) by lia.
    rewrite take_ge by lia. simpl take.
    rewrite (bind_Throw _ _ _ _ _
               (insertMany_invalid pre c _ db Hs Hm Hpre Hc)).
    rewrite Nat.div_small by done. by rewrite Nat.mul_0_r.
  - rewrite take_app_le by lia. rewrite drop_app_le by lia.
    assert (Forall valid (take n pre)) as Hv1 by by apply Forall_take.
    rewrite (bind_Return _ _ _ _ _ (insertMany_valid _ db Hs Hm Hv1)).
    rewrite IH.
    + rewrite <- insert_all_app, take_take_drop. do 3 f_equal.
      rewrite length_drop.
      replace (length pre) with ((length pre - n) + 1 * n)%nat at 2 by lia.
      rewrite Nat.div_add by lia. lia.
    + by apply insert_all_established.
    + by apply insert_all_mirrored.
    + by apply Forall_drop.
    + done.
    + rewrite length_app, length_drop. rewrite length_app in Hfuel.
      simpl in *. lia.
Qed.

(** X7. Where a bulk insert stops: on a mirrored database, if the first
    chunk of wrong length is at position [p], the call throws the length
    error of that chunk, and exactly the chunks of the full batches before it,
    the first [batchSize * (p / batchSize)] of the input, are committed. *)
Theorem bulkInsertChunks_first_invalid
    (fuel : nat) (pre : list CodeChunkRow) (c : CodeChunkRow)
    (post : list CodeChunkRow) (batchSize : Z) (db : Database) :
  established db → mirrored db → Forall valid pre → ¬ valid c →
  1 ≤ batchSize → (length (pre ++ c :: post) ≤ fuel)%nat →
  bulkInsertChunks fuel (pre ++ c :: post) batchSize db =
    Some (insert_all
            (take (Z.to_nat batchSize * (length pre / Z.to_nat batchSize)) pre) db,
          Throw (EmbeddingLengthError EMBEDDING_DIM (length (embedding c)))).
Proof.
  intros Hs Hm Hpre Hc Hb Hfuel.
  rewrite bulkInsertChunks_refines by done. unfold batches_of.
  by rewrite run_batches_first_invalid by (done || lia).
Qed.

Lemma bulkInsertChunks_first_invalid_witness :
  bulkInsertChunks 5 five_chunks 3 loaded_database =
    Some (insert_all (take 3 five_chunks) loaded_database,
          Throw (EmbeddingLengthError 384 383)).
Proof.
  apply (bulkInsertChunks_first_invalid 5 (take 4 five_chunks)
           (sample_chunk "e.ts" 383) [] 3 loaded_database).
  - reflexivity.
  - by vm_compute.
  - repeat constructor.
  - by vm_compute.
  - lia.
  - simpl. lia.
Defined.

(** ** [searchSimilar] *)

Lemma searchSimilar_fst
    (vec0_knn : gmap Z Buffer → Buffer → Z → SqliteError + list (Z * option Q))
    (q : Float32Array) (k : Z) (db : Database) :
  (searchSimilar vec0_knn q k db).1 = db.
Proof.
  unfold searchSimilar.
  destruct (decide (length q = EMBEDDING_DIM)) as [Hq|Hq].
  - rewrite (bind_Return _ _ _ _ _ (assertEmbeddingDim_ok _ db Hq)).
    unfold mbind, DbM_bind, SELECT_knn.
    destruct (tbl_code_chunks (schema db) && _); [|done].
    by destruct (vec0_knn _ _ _).
  - by rewrite (bind_Throw _ _ _ _ _ (assertEmbeddingDim_throws _ db Hq)).
Qed.

Lemma searchSimilar_no_length_error
    (vec0_knn : gmap Z Buffer → Buffer → Z → SqliteError + list (Z * option Q))
    (q : Float32Array) (k : Z) (db : Database) n m :
  length q = EMBEDDING_DIM →
  (searchSimilar vec0_knn q k db).2 ≠ Throw (EmbeddingLengthError n m).
Proof.
  intros Hq. unfold searchSimilar.
  rewrite (bind_Return _ _ _ _ _ (assertEmbeddingDim_ok _ db Hq)).
  unfold mbind, DbM_bind, SELECT_knn.
  destruct (tbl_code_chunks (schema db) && _); [|done].
  by destruct (vec0_knn _ _ _).
Qed.

(** X8. [searchSimilar] only reads: whatever the query, [k] and the answer of
    the index, and whether it returns or throws, the database after the call
    is the database before it. *)
Theorem searchSimilar_read_only
    (vec0_knn : gmap Z Buffer → Buffer → Z → SqliteError + list (Z * option Q))
    (q : Float32Array) (k : Z) (db : Database) :
  (searchSimilar vec0_knn q k db).1 = db.
Proof. apply searchSimilar_fst. Qed.

(** X9. With [k = 0] the search returns no result, whatever the index
    answers: [LIMIT 0] cuts every row. *)
Theorem searchSimilar_k_zero
    (vec0_knn : gmap Z Buffer → Buffer → Z → SqliteError + list (Z * option Q))
    (q : Float32Array) (db : Database) (ms : list (Z * option Q)) :
  loaded db → length q = EMBEDDING_DIM →
  vec0_knn (vec_index db) (float32ToBuffer q) 0 = inr ms →
  searchSimilar vec0_knn q 0 db = (db, Return []).
Proof.
  intros Hl Hq Hknn.
  by rewrite (searchSimilar_matches vec0_knn q 0 db ms Hq Hl Hknn).
Qed.

Lemma searchSimilar_k_zero_witness :
  searchSimilar (vec0_all sample_matches) (new_Float32Array 384) 0 four_rows_database
    = (four_rows_database, Return []).
Proof.
  apply (searchSimilar_k_zero (vec0_all sample_matches) (new_Float32Array 384)
           four_rows_database sample_matches).
  - reflexivity.
  - by vm_compute.
  - reflexivity.
Defined.

Lemma omap_join_all t (ms : list (Z * option Q)) :
  Forall (λ m, is_Some (t !! m.1)) ms →
  (λ r : KnnRow, (r.1.1, r.2)) <$> omap (join_code_chunks t) ms = ms.
Proof.
  induction 1 as [|m ms [c Hc] _ IH]; [done|].
  csimpl. unfold join_code_chunks at 1. rewrite Hc. csimpl.
  rewrite IH. by destruct m.
Qed.

(** X10. On a mirrored database no match is lost: when the index answers
    with at most [k] matches, all of them identities it holds, the results
    are exactly these matches (identity and distance), in order of distance. *)
Theorem searchSimilar_complete
    (vec0_knn : gmap Z Buffer → Buffer → Z → SqliteError + list (Z * option Q))
    (q : Float32Array) (k : Z) (db : Database) (ms : list (Z * option Q)) :
  loaded db → mirrored db → length q = EMBEDDING_DIM →
  vec0_knn (vec_index db) (float32ToBuffer q) k = inr ms →
  Forall (λ m, is_Some (vec_index db !! m.1)) ms →
  Z.of_nat (length ms) ≤ k →
  ∃ rs, searchSimilar vec0_knn q k db = (db, Return rs) ∧
        (λ r, (id r, distance r)) <$> rs ≡ₚ (λ m, (m.1, Number m.2)) <$> ms ∧
        length rs = length ms.
Proof.
  intros Hl Hm Hq Hknn Hin Hk.
  exists (to_SearchResult <$> knn_rows db k ms).
  split; [by apply searchSimilar_matches|].
  assert (Forall (λ m, is_Some (code_chunks db !! m.1)) ms) as Hrows.
  { eapply Forall_impl; [exact Hin|]. intros m [e He]. simpl.
    rewrite Hm, lookup_fmap in He.
    destruct (code_chunks db !! m.1); [eauto|done]. }
  assert ((λ r : KnnRow, (r.1.1, r.2)) <$> knn_rows db k ms ≡ₚ ms) as Hperm.
  { rewrite <- (omap_join_all (code_chunks db) ms Hrows) at 2.
    unfold knn_rows, sql_limit.
    destruct (k <? 0); [by rewrite merge_sort_Permutation|].
    rewrite take_ge; [by rewrite merge_sort_Permutation|].
    rewrite merge_sort_Permutation.
    rewrite <- (length_fmap (λ r : KnnRow, (r.1.1, r.2))).
    rewrite (omap_join_all (code_chunks db) ms Hrows). lia. }
  split.
  - apply (fmap_Permutation (λ m : Z * option Q, (m.1, Number m.2))) in Hperm.
    by rewrite <- !list_fmap_compose in *.
  - apply Permutation_length in Hperm. by rewrite !length_fmap in *.
Qed.

Lemma searchSimilar_complete_witness :
  ∃ rs, searchSimilar (vec0_all [(3, Some (1 # 2)%Q); (1, Some (0 # 1)%Q)])
          (new_Float32Array 384) 5 four_rows_database
        = (four_rows_database, Return rs) ∧
        length rs = 2%nat.
Proof.
  destruct (searchSimilar_complete (vec0_all [(3, Some (1 # 2)%Q); (1, Some (0 # 1)%Q)])
              (new_Float32Array 384) 5 four_rows_database
              [(3, Some (1 # 2)%Q); (1, Some (0 # 1)%Q)])
    as (rs & Hrun & _ & Hlen).
  - reflexivity.
  - by vm_compute.
  - by vm_compute.
  - reflexivity.
  - repeat constructor; by eexists.
  - simpl. lia.
  - exists rs. by split.
Defined.

(** X11. Insert, then search: after [insertChunk] has returned an identity,
    every result with that identity that any later search returns carries the
    file name, file path, text and inline documentation of the inserted chunk. *)
Theorem insertChunk_searchSimilar_round_trip
    (vec0_knn : gmap Z Buffer → Buffer → Z → SqliteError + list (Z * option Q))
    (c : CodeChunkRow) (db db1 db2 : Database) (j : Z)
    (q : Float32Array) (k : Z) (rs : list SearchResult) (r : SearchResult) :
  established db → mirrored db →
  insertChunk c db = (db1, Return j) →
  searchSimilar vec0_knn q k db1 = (db2, Return rs) →
  r ∈ rs → id r = j →
  res_file_name r = file_name c ∧ res_file_path r = file_path c ∧
  res_chunk_text r = chunk_text c ∧ res_inline_document r = inline_document c.
Proof.
  intros Hs Hm Hins Hsearch Hr Hid.
  assert (db1 = insert_row c db ∧ j = next_rowid db) as [-> ->].
  { destruct (insertChunk_outcomes c db Hs) as (Hbad & _ & Hok).
    destruct (decide (valid c)) as [Hv|Hv].
    - rewrite (Hok Hv (mirrored_fresh db Hm)) in Hins. by simplify_eq.
    - rewrite (Hbad Hv) in Hins. by simplify_eq. }
  apply searchSimilar_Return in Hsearch as (_ & _ & ms & _ & ->).
  apply list_elem_of_fmap in Hr as (row & -> & Hrow).
  apply knn_rows_elem_of in Hrow as (m & _ & Hm1 & _ & Hc).
  simpl in Hid. rewrite <- Hm1, Hid in Hc. simpl in Hc.
  rewrite lookup_insert_eq in Hc. simplify_eq. simpl.
  by rewrite <- Hc.
Qed.

Lemma insertChunk_searchSimilar_round_trip_witness :
  ∃ r, r ∈ [to_SearchResult (5, stored (sample_chunk "e.ts" 384), Some (1 # 3)%Q)] ∧
       res_chunk_text r = "fn e.ts".
Proof.
  exists (to_SearchResult (5, stored (sample_chunk "e.ts" 384), Some (1 # 3)%Q)).
  split; [apply list_elem_of_here|].
  apply (insertChunk_searchSimilar_round_trip (vec0_all [(5, Some (1 # 3)%Q)])
           (sample_chunk "e.ts" 384) four_rows_database
           (insert_row (sample_chunk "e.ts" 384) four_rows_database)
           (insert_row (sample_chunk "e.ts" 384) four_rows_database) 5
           (new_Float32Array 384) 3
           [to_SearchResult (5, stored (sample_chunk "e.ts" 384), Some (1 # 3)%Q)]).
  - reflexivity.
  - by vm_compute.
  - by vm_compute.
  - by vm_compute.
  - apply list_elem_of_here.
  - reflexivity.
Defined.

(** ** The embedding wrapper on an output of the wrong length *)

Lemma calculateEmbedding_output
    (embeddingPipeline : string → PipelineResult) (text : string)
    (arr : list float32) :
  embeddingPipeline text = PipelineOutput (Some arr) →
  Cli.calculateEmbedding embeddingPipeline text =
    Fulfilled (take EMBEDDING_DIM arr ++
               replicate (EMBEDDING_DIM - length arr) (S754_zero false)).
Proof.
  intros H. unfold Cli.calculateEmbedding. rewrite H.
  case_decide as Hlen; unfold try_catch; f_equal.
  - unfold Float32Array_set, new_Float32Array.
    rewrite drop_replicate, length_take. f_equal.
    + destruct (decide (length arr ≤ EMBEDDING_DIM)%nat).
      * rewrite Nat.min_l by done. by rewrite !take_ge by done.
      * by rewrite Nat.min_r by lia.
    + f_equal. lia.
  - assert (length arr = EMBEDDING_DIM) as Hl
      by (by destruct (decide (length arr = EMBEDDING_DIM))).
    rewrite Hl, Nat.sub_diag. simpl replicate. rewrite app_nil_r.
    symmetry. apply take_ge. by rewrite Hl.
Qed.

(** X12. For a pipeline output [arr] the current wrapper yields the first
    384 elements of [arr] followed by zeros up to 384 elements: an output of
    the right length is passed on unchanged, a longer one is cut and a
    shorter one is padded; element [j] of the result is element [j] of [arr]
    wherever [arr] has one. *)
Theorem calculateEmbedding_truncates_or_pads
    (embeddingPipeline : string → PipelineResult) (text : string)
    (arr : list float32) :
  embeddingPipeline text = PipelineOutput (Some arr) →
  ∃ v, Cli.calculateEmbedding embeddingPipeline text = Fulfilled v ∧
       length v = EMBEDDING_DIM ∧
       (length arr = EMBEDDING_DIM → v = arr) ∧
       (∀ j x, (j < EMBEDDING_DIM)%nat → arr !! j = Some x → v !! j = Some x) ∧
       (∀ j, (length arr ≤ j < EMBEDDING_DIM)%nat → v !! j = Some (S754_zero false)).
Proof.
  intros H. eexists. split; [by apply calculateEmbedding_output|].
  split; [|split; [|split]].
  - rewrite length_app, length_take, length_replicate. lia.
  - intros Hl. rewrite Hl, Nat.sub_diag. simpl. rewrite app_nil_r.
    apply take_ge. by rewrite Hl.
  - intros j x Hj Hx. unfold Float32Array. rewrite lookup_app_l.
    + by rewrite lookup_take_lt by done.
    + rewrite length_take. apply lookup_lt_Some in Hx. lia.
  - intros j Hj. unfold Float32Array, float32 in *.
    rewrite lookup_app_r by (rewrite length_take; lia).
    apply lookup_replicate_2. rewrite length_take. lia.
Qed.

Lemma calculateEmbedding_truncates_or_pads_witness :
  Cli.calculateEmbedding (λ _, PipelineOutput (Some short_output)) "fn main"
    = Fulfilled (short_output ++ replicate 382 (S754_zero false)).
Proof.
  destruct (calculateEmbedding_truncates_or_pads
              (λ _, PipelineOutput (Some short_output)) "fn main" short_output eq_refl)
    as (v & Hrun & _).
  rewrite Hrun. by vm_compute in Hrun.
Defined.

(** X13. Whatever the pipeline does (throws, yields no data, yields an array
    of any length), neither version of the wrapper rejects, and the vector it
    yields has exactly 384 elements: what it hands to the store always passes
    the store's length check. *)
Theorem calculateEmbedding_always_valid
    (embeddingPipeline : string → PipelineResult) (text : string) :
  (∃ v, Cli.calculateEmbedding embeddingPipeline text = Fulfilled v ∧
        length v = EMBEDDING_DIM) ∧
  (∃ v, CliLegacy.calculateEmbedding embeddingPipeline text = Fulfilled v ∧
        length v = EMBEDDING_DIM).
Proof. apply calculateEmbedding_total. Qed.

(** X14. Where the two versions differ: on an output of the wrong length the
    earlier wrapper yields 384 zeros (the output is dropped), and the current
    one agrees with it only when the part of the output it keeps is all zeros. *)
Theorem calculateEmbedding_versions_differ
    (embeddingPipeline : string → PipelineResult) (text : string)
    (arr : list float32) :
  embeddingPipeline text = PipelineOutput (Some arr) →
  length arr ≠ EMBEDDING_DIM →
  CliLegacy.calculateEmbedding embeddingPipeline text
    = Fulfilled (new_Float32Array EMBEDDING_DIM) ∧
  (Cli.calculateEmbedding embeddingPipeline text
     = CliLegacy.calculateEmbedding embeddingPipeline text ↔
   Forall (λ x, x = S754_zero false) (take EMBEDDING_DIM arr)).
Proof.
  intros H Hlen.
  assert (CliLegacy.calculateEmbedding embeddingPipeline text
          = Fulfilled (new_Float32Array EMBEDDING_DIM)) as Hlegacy.
  { unfold CliLegacy.calculateEmbedding. rewrite H. by rewrite decide_True. }
  split; [done|]. rewrite Hlegacy, (calculateEmbedding_output _ _ _ H).
  unfold new_Float32Array. split.
  - intros Heq.
    assert (∀ a b : Float32Array, Fulfilled a = Fulfilled b → a = b) as Hinj
      by (by intros a b [= ->]).
    apply Hinj in Heq. apply Forall_forall. intros x Hx.
    assert (x ∈ replicate EMBEDDING_DIM (S754_zero false)) as Hin
      by (rewrite <- Heq; apply elem_of_app; by left).
    by apply elem_of_replicate_inv in Hin.
  - intros Hz. f_equal. symmetry. apply replicate_as_Forall. split.
    + rewrite length_app, length_take, length_replicate. lia.
    + apply Forall_app. split.
      * eapply Forall_impl; [exact Hz|]. by intros x ->.
      * apply Forall_replicate. done.
Qed.

Lemma calculateEmbedding_versions_differ_witness :
  CliLegacy.calculateEmbedding (λ _, PipelineOutput (Some short_output)) "fn main"
    = Fulfilled (replicate 384 (S754_zero false)) ∧
  Cli.calculateEmbedding (λ _, PipelineOutput (Some short_output)) "fn main"
    ≠ CliLegacy.calculateEmbedding (λ _, PipelineOutput (Some short_output)) "fn main".
Proof.
  destruct (calculateEmbedding_versions_differ
              (λ _, PipelineOutput (Some short_output)) "fn main" short_output eq_refl)
    as [Hlegacy Hiff].
  - by vm_compute.
  - split; [exact Hlegacy|]. intros Heq%Hiff.
    vm_compute in Heq. by inversion Heq.
Defined.


(** ** [indexDirectory] *)

Section CommandProperties.
Variable embeddingPipeline : string → PipelineResult.
Variable readDirectoryAndChunk : string → ReaderResult.
Variable basename : string → string.
Variable substring : nat → nat → string → string.
Variable vec0_knn : gmap Z Buffer → Buffer → Z → SqliteError + list (Z * option Q).

Lemma collect_rows_Fulfilled (chunks : list BoundaryChunk) :
  ∃ rows,
    CliLegacyCommands.collect_rows embeddingPipeline basename chunks = Fulfilled rows ∧
    length rows = length chunks ∧ Forall valid rows ∧
    ∀ (j : nat) chunk, chunks !! j = Some chunk →
      ∃ row, rows !! j = Some row ∧
             row = CliLegacyCommands.to_row basename chunk (embedding row) ∧
             CliLegacy.calculateEmbedding embeddingPipeline (content chunk)
               = Fulfilled (embedding row).
Proof.
  induction chunks as [|chunk chunks (rows & Hrows & Hlen & Hvalid & Hlookup)].
  - exists []. by repeat split.
  - destruct (calculateEmbedding_total embeddingPipeline (content chunk))
      as [_ (v & Hv & Hvlen)].
    exists (CliLegacyCommands.to_row basename chunk v :: rows).
    simpl. rewrite Hv, Hrows. split; [done|]. split; [by rewrite Hlen|].
    split; [by constructor|].
    intros [|j] chunk' Hj; simpl in Hj.
    + simplify_eq. by eexists.
    + by apply Hlookup.
Qed.

(** X15. On a mirrored database with the module's schema, [indexDirectory]
    stores every chunk the chunker returns, whatever the embedding pipeline
    does: each chunk becomes a row (file name by [basename], path, text,
    documentation or the empty string, never NULL, and an embedding of 384
    elements) in both tables under the next identities, and the count it
    reports is the number of chunks. Chunks whose embedding failed are stored
    all the same, with the zero vector. *)
Theorem indexDirectory_stores_every_chunk
    (fuel : nat) (dirPath : string) (db : Database) (chunks : list BoundaryChunk) :
  established db → mirrored db →
  readDirectoryAndChunk dirPath = ReaderChunks chunks →
  chunks ≠ [] → (length chunks ≤ fuel)%nat →
  ∃ rows,
    CliLegacyCommands.indexDirectory embeddingPipeline readDirectoryAndChunk
      basename fuel dirPath db
      = Some (insert_all rows db, Indexed (length chunks)) ∧
    length rows = length chunks ∧
    committed rows db (insert_all rows db) ∧
    ∀ (j : nat) chunk, chunks !! j = Some chunk →
      ∃ row, rows !! j = Some row ∧
             file_name row = basename (filePath chunk) ∧
             file_path row = filePath chunk ∧
             chunk_text row = content chunk ∧
             inline_document row = Some (default EmptyString (docs chunk)) ∧
             length (embedding row) = EMBEDDING_DIM ∧
             (embeddingPipeline (content chunk) = PipelineThrows →
              embedding row = new_Float32Array EMBEDDING_DIM).
Proof.
  intros Hs Hm Hread Hne Hfuel.
  destruct (collect_rows_Fulfilled chunks) as (rows & Hrows & Hlen & Hvalid & Hlookup).
  exists rows. split; [|split; [done|split; [apply insert_all_committed|]]].
  - unfold CliLegacyCommands.indexDirectory. rewrite Hread, Hrows.
    rewrite decide_True by (rewrite Hlen; destruct chunks; [done|simpl; lia]).
    rewrite bulkInsertChunks_valid; [by rewrite Hlen|done..| |lia].
    by vm_compute.
  - intros j chunk Hj.
    destruct (Hlookup j chunk Hj) as (row & Hrow & Heq & Hemb).
    exists row. split; [done|].
    rewrite Forall_forall in Hvalid.
    assert (valid row) as Hv by (apply Hvalid; by eapply list_elem_of_lookup_2).
    rewrite Heq. simpl. repeat split; try done.
    intros Hthrow. unfold CliLegacy.calculateEmbedding in Hemb.
    rewrite Hthrow in Hemb. simpl in Hemb. by simplify_eq.
Qed.

(** X16. With at most 500 chunks (one batch), [indexDirectory] on a database
    with the module's schema is all or nothing: either it reports the number
    of chunks and every one of them is committed, or it reports something
    else (no chunks, or an error) and the database is as it was. *)
Theorem indexDirectory_all_or_nothing
    (fuel : nat) (dirPath : string) (db : Database) (chunks : list BoundaryChunk) :
  established db →
  readDirectoryAndChunk dirPath = ReaderChunks chunks →
  (length chunks ≤ 500)%nat → (length chunks ≤ fuel)%nat →
  (∃ rows,
     CliLegacyCommands.indexDirectory embeddingPipeline readDirectoryAndChunk
       basename fuel dirPath db
       = Some (insert_all rows db, Indexed (length chunks)) ∧
     length rows = length chunks ∧ chunks ≠ []) ∨
  (∃ report,
     CliLegacyCommands.indexDirectory embeddingPipeline readDirectoryAndChunk
       basename fuel dirPath db = Some (db, report) ∧
     ∀ n, report ≠ Indexed n).
Proof.
  intros Hs Hread H500 Hfuel.
  destruct (collect_rows_Fulfilled chunks) as (rows & Hrows & Hlen & _ & _).
  unfold CliLegacyCommands.indexDirectory. rewrite Hread, Hrows.
  case_decide as Hpos; [|right; by eexists].
  destruct (bulkInsertChunks_fits_one_batch fuel rows default_batchSize db Hs)
    as [H|[e H]]; [done|unfold default_batchSize; lia|lia| |]; rewrite H.
  - left. exists rows. rewrite Hlen. split; [done|]. split; [done|].
    intros ->. simpl in Hlen. lia.
  - right. by eexists.
Qed.

(** ** [query] *)

(** X17. [query] never fails on the length check and never changes the
    database: whatever the embedding pipeline does, the vector it searches
    with has 384 elements; and when the pipeline throws, the query is not
    refused but answered as the search for the all-zero vector. *)
Theorem query_never_length_error (queryText : string) (k : Z) (db : Database) :
  (CliLegacyCommands.query embeddingPipeline substring vec0_knn queryText k db).1 = db ∧
  (CliLegacyCommands.query embeddingPipeline substring vec0_knn queryText k db).2
    ≠ QueryRejected ∧
  (∀ n m, (CliLegacyCommands.query embeddingPipeline substring vec0_knn queryText k db).2
          ≠ QueryThrows (EmbeddingLengthError n m)) ∧
  (embeddingPipeline queryText = PipelineThrows →
   CliLegacyCommands.query embeddingPipeline substring vec0_knn queryText k db =
     print_results substring queryText k
       (searchSimilar vec0_knn (new_Float32Array EMBEDDING_DIM) k db)).
Proof.
  destruct (calculateEmbedding_total embeddingPipeline queryText)
    as [_ (v & Hv & Hlen)].
  unfold CliLegacyCommands.query. rewrite Hv.
  pose proof (searchSimilar_fst vec0_knn v k db) as Hfst.
  pose proof (searchSimilar_no_length_error vec0_knn v k db) as Hno.
  destruct (searchSimilar vec0_knn v k db) as [d [rs|e]] eqn:E; simpl in *.
  - subst d. repeat split; try (case_decide; done).
    intros Hthrow. unfold CliLegacy.calculateEmbedding in Hv.
    rewrite Hthrow in Hv. simpl in Hv. simplify_eq. by rewrite E.
  - subst d. repeat split; try done.
    + intros n m [= ->]. by apply (Hno n m).
    + intros Hthrow. unfold CliLegacy.calculateEmbedding in Hv.
      rewrite Hthrow in Hv. simpl in Hv. simplify_eq. by rewrite E.
Qed.

End CommandProperties.

Lemma indexDirectory_stores_every_chunk_witness :
  ∃ rows,
    CliLegacyCommands.indexDirectory (λ _, PipelineThrows) (λ _, ReaderChunks two_chunks)
      (λ p, p) 2 "." loaded_database
      = Some (insert_all rows loaded_database, Indexed 2) ∧
    length rows = 2%nat.
Proof.
  destruct (indexDirectory_stores_every_chunk (λ _, PipelineThrows)
              (λ _, ReaderChunks two_chunks) (λ p, p) 2 "." loaded_database two_chunks)
    as (rows & Hrun & Hlen & _).
  - reflexivity.
  - by vm_compute.
  - reflexivity.
  - done.
  - simpl. lia.
  - exists rows. by split.
Defined.

Lemma indexDirectory_all_or_nothing_witness :
  ∃ report,
    CliLegacyCommands.indexDirectory (λ _, PipelineThrows) (λ _, ReaderChunks two_chunks)
      (λ p, p) 2 "." blocked_database
      = Some (blocked_database, report) ∧
    ∀ n, report ≠ Indexed n.
Proof.
  destruct (indexDirectory_all_or_nothing (λ _, PipelineThrows)
              (λ _, ReaderChunks two_chunks) (λ p, p) 2 "." blocked_database two_chunks)
    as [(rows & Hrun & _)|Hnothing].
  - reflexivity.
  - reflexivity.
  - simpl. lia.
  - simpl. lia.
  - exfalso.
    assert (CliLegacyCommands.indexDirectory (λ _, PipelineThrows)
              (λ _, ReaderChunks two_chunks) (λ p, p) 2 "." blocked_database
            = Some (blocked_database,
                    IndexingError (CaughtStore (SQLiteError (VecUniqueConstraint 5)))))
      as E by (vm_compute; reflexivity).
    rewrite E in Hrun. discriminate Hrun.
  - exact Hnothing.
Defined.
